(** * Block-synchronisation core of the staged stream sync: download manager
      and short-range helper.

    Shallow embedding of
      - [api/service/stagedstreamsync/block_manager.go] (the download manager
        [getBlocksManager], which the file carries in two variants), and
      - the short-range helper [srHelper] ([getHashChain],
        [doGetBlockHashesRequest], [checkPrerequisites],
        [prepareBlockHashNumbers], [removeStreams], [blameAllStreams]), and
      - the transactions of the staged sync ([initDB] and [runSyncCycle] of
        [api/service/stagedsync/syncing.go], [Unwind] and [Prune] of the
        last-mile stage), as the calls they make on the database.

    Conventions.  A Go [uint64] is an [N] with the wrap-around of [bn++]
    written out ([succ64]); a Go [int] is a [Z]; a [map[uint64]struct{}] is a
    [gset N]; a [map[uint64]T] is a [gmap N T]; a nilable [*types.Block] is an
    [option Block]; a method that can panic on a slice index returns
    [option].  Every method of the manager takes the manager's mutex for its
    whole body, so a method is a function from the state before to the state
    after. *)

From Stdlib Require Import NArith ZArith Lia.
From stdpp Require Import base numbers list sorting strings gmap sets.

#[local] Set Warnings "-clear-no-such-hyp".

(** ** Basic data *)

Abbreviation StreamID := string.

(** [uint64] arithmetic: [bn + 1] and [bn++] wrap at [2^64]. *)
Definition uint64_mod : N := 2 ^ 64.
Definition succ64 (bn : N) : N := ((bn + 1) mod uint64_mod)%N.

(** [types.Block], seen through the two accessors the manager uses. *)
Record Block := mkBlock { NumberU64 : N; Hash : N }.

(** [blockResult]: a received block together with the stream it came from. *)
Record blockResult := mkResult { block : Block; stid : StreamID }.

Definition getBlockNumber (r : blockResult) : N := NumberU64 (block r).

(** The [blockChain] interface, as far as the manager reads it:
    [chain.CurrentBlock()]. *)
Record blockChain := mkChain { CurrentBlock : Block }.

#[global] Instance Block_eq_dec : EqDecision Block.
Proof. solve_decision. Defined.
#[global] Instance blockResult_eq_dec : EqDecision blockResult.
Proof. solve_decision. Defined.

(** ** The retry queue *)

(** Modelled from the spec: the type [prioritizedNumbers] with [push] and
    [pop] is declared in another file of the package.  Section 4.1 gives it as a
    container of heights ordered ascending, where duplicates are permitted and
    [pop] returns the smallest outstanding value, or the sentinel [0] when
    empty.  The representation is the ascending list of the queued heights. *)
Definition prioritizedNumbers := list N.

Definition newPrioritizedNumbers : prioritizedNumbers := [].

Fixpoint push (bn : N) (q : prioritizedNumbers) : prioritizedNumbers :=
  match q with
  | [] => [bn]
  | x :: q' => if (bn <=? x)%N then bn :: q else x :: push bn q'
  end.

Definition pop (q : prioritizedNumbers) : N * prioritizedNumbers :=
  match q with
  | [] => (0%N, [])
  | x :: q' => (x, q')
  end.

(** [for _, bn := range bns { retries.push(bn) }] *)
Definition push_all (bns : list N) (q : prioritizedNumbers) : prioritizedNumbers :=
  foldl (λ q bn, push bn q) q bns.

(** ** The result queue *)

(** Modelled from the spec: the type [resultQueue] with [addBlockResults],
    [removeResultsByStreamID] and [results.Len] is declared in another file
    of the package.  Section 4.2 gives it as a min-heap of block results keyed by
    height; [addBlockResults] pushes each non-nil block and ignores an entry
    whose height already appears (first writer wins);
    [removeResultsByStreamID] removes every entry of the stream and returns
    the heights removed.  The representation is the list of queued results in
    ascending height. *)
Definition resultQueue := list blockResult.

Definition newResultQueue : resultQueue := [].

Fixpoint rq_push (r : blockResult) (q : resultQueue) : resultQueue :=
  match q with
  | [] => [r]
  | x :: q' =>
      if (getBlockNumber r <? getBlockNumber x)%N then r :: q
      else if (getBlockNumber r =? getBlockNumber x)%N then q
      else x :: rq_push r q'
  end.

Definition addBlockResults (blocks : list (option Block)) (sid : StreamID)
    (q : resultQueue) : resultQueue :=
  foldl (λ q ob, match ob with
                 | None => q
                 | Some b => rq_push (mkResult b sid) q
                 end) q blocks.

Definition removeResultsByStreamID (sid : StreamID) (q : resultQueue)
    : list N * resultQueue :=
  (getBlockNumber <$> filter (λ r, stid r = sid) q,
   filter (λ r, stid r ≠ sid) q).

Definition rq_Len (q : resultQueue) : Z := Z.of_nat (length q).

(** ** Loops shared by the two variants of the manager *)

(** [for _, bn := range bns { delete(m, bn) }] *)
Definition delete_all (bns : list N) (m : gset N) : gset N :=
  foldl (λ m bn, m ∖ {[bn]}) m bns.

(** [for _, bn := range bns { m[bn] = struct{}{} }] *)
Definition insert_all (bns : list N) (m : gset N) : gset N :=
  foldl (λ m bn, {[bn]} ∪ m) m bns.

(** [for _, bn := range bns { delete(m, bn); retries.push(bn) }]: the loop
    that sends heights back to the retry queue, run on [requesting] for the
    heights of a failed request and on [processing] for the heights scrubbed
    from the result queue. *)
Definition demote (bns : list N) (mr : gset N * prioritizedNumbers)
    : gset N * prioritizedNumbers :=
  foldl (λ mr bn, (mr.1 ∖ {[bn]}, push bn mr.2)) mr bns.

(** Go slice expressions on an [int] index.  [l[n]] panics unless
    [0 <= n < len(l)]; [l[:n]] and [l[n:]] panic unless [0 <= n <= len(l)]
    (for [l[:n]] Go checks against the capacity; the slices here are taken at
    their length).  [None] is the panic. *)
Definition index {A} (l : list A) (n : Z) : option A :=
  if (0 <=? n)%Z then l !! Z.to_nat n else None.

Definition slice_to {A} (l : list A) (n : Z) : option (list A) :=
  if ((0 <=? n) && (n <=? Z.of_nat (length l)))%Z
  then Some (take (Z.to_nat n) l) else None.

Definition slice_from {A} (l : list A) (n : Z) : option (list A) :=
  if ((0 <=? n) && (n <=? Z.of_nat (length l)))%Z
  then Some (drop (Z.to_nat n) l) else None.

(** The non-blocking send [select { case resultC <- struct{}{}: default: }]
    on a channel of capacity one: afterwards one signal is buffered, whether
    it was already there or not. *)
Definition nudge (resultC : bool) : bool := true.

(** *** [getBatchFromRetries] *)

(** The loop [for cnt := 0; cnt < cap; cnt++], with [n] the iterations left.
    A popped [0] ends the loop; a height not above the head is dropped and
    still uses up its iteration. *)
Fixpoint retries_loop (n : nat) (curHeight : N) (q : prioritizedNumbers)
    (requestBNs : list N) : list N * prioritizedNumbers :=
  match n with
  | O => (requestBNs, q)
  | S n' =>
      let '(bn, q') := pop q in
      if (bn =? 0)%N then (requestBNs, q')
      else if (bn <=? curHeight)%N then retries_loop n' curHeight q' requestBNs
      else retries_loop n' curHeight q' (requestBNs ++ [bn])
  end.

(** *** [getBatchFromUnprocessed] *)

(** The inner loop [for bn <= targetBN { ... }]: finds the first height from
    [bn] on that is in neither map.  Returns the height appended (if any) and
    the value of [bn] on leaving the loop.  [bn++] wraps, so the loop is run on
    fuel; [None] is fuel exhausted. *)
Fixpoint scan_free (fuel : nat) (targetBN : N) (requesting processing : gset N)
    (bn : N) : option (option N * N) :=
  if (bn <=? targetBN)%N then
    match fuel with
    | O => None
    | S fuel' =>
        if bool_decide (bn ∉ requesting) && bool_decide (bn ∉ processing)
        then Some (Some bn, succ64 bn)
        else scan_free fuel' targetBN requesting processing (succ64 bn)
    end
  else Some (None, bn).

(** The outer loop [for cnt := 0; cnt < cap && bn <= targetBN; cnt++], with
    [n] the iterations left. *)
Fixpoint unprocessed_loop (fuel : nat) (n : nat) (targetBN : N)
    (requesting processing : gset N) (bn : N) (requestBNs : list N)
    : option (list N) :=
  match n with
  | O => Some requestBNs
  | S n' =>
      if (bn <=? targetBN)%N then
        match scan_free fuel targetBN requesting processing bn with
        | None => None
        | Some (found, bn') =>
            unprocessed_loop fuel n' targetBN requesting processing bn'
              (requestBNs ++ option_list found)
        end
      else Some requestBNs
  end.

(** ** The manager that feeds the result queue
    (second [getBlocksManager] of block_manager.go) *)

Module QueueManager.

Record getBlocksManager := mkManager {
  chain : blockChain;
  targetBN : N;
  requesting : gset N;
  processing : gset N;
  retries : prioritizedNumbers;
  rq : resultQueue;
  resultC : bool
}.

Definition newGetBlocksManager (c : blockChain) (target : N) : getBlocksManager :=
  mkManager c target ∅ ∅ newPrioritizedNumbers newResultQueue false.

Definition with_requesting (m : gset N) (g : getBlocksManager) :=
  mkManager (chain g) (targetBN g) m (processing g) (retries g) (rq g) (resultC g).
Definition with_processing (m : gset N) (g : getBlocksManager) :=
  mkManager (chain g) (targetBN g) (requesting g) m (retries g) (rq g) (resultC g).
Definition with_retries (q : prioritizedNumbers) (g : getBlocksManager) :=
  mkManager (chain g) (targetBN g) (requesting g) (processing g) q (rq g) (resultC g).
Definition with_rq (q : resultQueue) (g : getBlocksManager) :=
  mkManager (chain g) (targetBN g) (requesting g) (processing g) (retries g) q (resultC g).
Definition with_resultC (c : bool) (g : getBlocksManager) :=
  mkManager (chain g) (targetBN g) (requesting g) (processing g) (retries g) (rq g) c.

Definition curHeight (g : getBlocksManager) : N := NumberU64 (CurrentBlock (chain g)).

Section Manager.
(** The two package constants the manager reads; both are Go [int]s. *)
Variables numBlocksByNumPerRequest softQueueCap : Z.

Definition getBatchFromRetries (cap : Z) (g : getBlocksManager)
    : list N * getBlocksManager :=
  let '(requestBNs, q) := retries_loop (Z.to_nat cap) (curHeight g) (retries g) [] in
  (requestBNs, with_retries q g).

Definition getBatchFromUnprocessed (fuel : nat) (cap : Z) (g : getBlocksManager)
    : option (list N) :=
  unprocessed_loop fuel (Z.to_nat cap) (targetBN g) (requesting g) (processing g)
    (succ64 (curHeight g)) [].

Definition availableForMoreTasks (g : getBlocksManager) : bool :=
  (rq_Len (rq g) <? softQueueCap)%Z.

Definition addBatchToRequesting (bns : list N) (g : getBlocksManager) :=
  with_requesting (insert_all bns (requesting g)) g.

(** [GetNextBatch]; [None] only when the scan for fresh heights runs out of
    fuel. *)
Definition GetNextBatch (fuel : nat) (g : getBlocksManager)
    : option (list N * getBlocksManager) :=
  let cap := numBlocksByNumPerRequest in
  let '(bns, g) := getBatchFromRetries cap g in
  let cap := (cap - Z.of_nat (length bns))%Z in
  let g := addBatchToRequesting bns g in
  if availableForMoreTasks g then
    match getBatchFromUnprocessed fuel cap g with
    | None => None
    | Some addBNs => Some (bns ++ addBNs, addBatchToRequesting addBNs g)
    end
  else Some (bns, g).
End Manager.

(** [HandleRequestError]: the error itself is only logged. *)
Definition HandleRequestError (bns : list N) (sid : StreamID) (g : getBlocksManager)
    : getBlocksManager :=
  let '(req, ret) := demote bns (requesting g, retries g) in
  let g := with_retries ret (with_requesting req g) in
  let '(removed, q) := removeResultsByStreamID sid (rq g) in
  let g := with_rq q g in
  let '(proc, ret) := demote removed (processing g, retries g) in
  with_retries ret (with_processing proc g).

(** The loop of [HandleRequestResult] from index [i] on; [blocks[i]] panics
    when [blocks] is shorter than [bns]. *)
Fixpoint result_loop (i : nat) (bns : list N) (blocks : list (option Block))
    (g : getBlocksManager) : option getBlocksManager :=
  match bns with
  | [] => Some g
  | bn :: bns' =>
      let g := with_requesting (requesting g ∖ {[bn]}) g in
      match blocks !! i with
      | None => None
      | Some None =>
          result_loop (S i) bns' blocks (with_retries (push bn (retries g)) g)
      | Some (Some _) =>
          result_loop (S i) bns' blocks (with_processing ({[bn]} ∪ processing g) g)
      end
  end.

Definition HandleRequestResult (bns : list N) (blocks : list (option Block))
    (sid : StreamID) (g : getBlocksManager) : option getBlocksManager :=
  match result_loop 0 bns blocks g with
  | None => None
  | Some g =>
      let g := with_rq (addBlockResults blocks sid (rq g)) g in
      Some (with_resultC (nudge (resultC g)) g)
  end.

Definition HandleInsertResult (inserted : list blockResult) (g : getBlocksManager)
    : getBlocksManager :=
  with_processing (delete_all (getBlockNumber <$> inserted) (processing g)) g.

(** [for _, res := range abandoned { rq.addBlockResults([]*types.Block{res.block}, res.stid) }] *)
Definition reenqueue (abandoned : list blockResult) (q : resultQueue) : resultQueue :=
  foldl (λ q res, addBlockResults [Some (block res)] (stid res) q) q abandoned.

(** [HandleInsertError]: the three slice expressions come first, then the
    state is updated. *)
Definition HandleInsertError (results : list blockResult) (n : Z)
    (g : getBlocksManager) : option getBlocksManager :=
  inserted ← slice_to results n;
  errResult ← index results n;
  abandoned ← (if bool_decide (n ≠ Z.of_nat (length results))
               then slice_from results (n + 1) else Some []);
  let g := with_processing (delete_all (getBlockNumber <$> inserted) (processing g)) g in
  let g := with_rq (reenqueue abandoned (rq g)) g in
  let g := with_processing (processing g ∖ {[getBlockNumber errResult]}) g in
  let g := with_retries (push (getBlockNumber errResult) (retries g)) g in
  let '(removed, q) := removeResultsByStreamID (stid errResult) (rq g) in
  let g := with_rq q g in
  let '(proc, ret) := demote removed (processing g, retries g) in
  Some (with_retries ret (with_processing proc g)).

End QueueManager.

(** ** The manager that records download details
    (first [getBlocksManager] of block_manager.go) *)

Module TxManager.

Record BlockDownloadDetails := mkDetails { loopID : Z; streamID : StreamID }.

(** The field [tx kv.RwTx] is only stored by the constructor; no method of
    the manager reads it, and it is left out. *)
Record getBlocksManager := mkManager {
  chain : blockChain;
  targetBN : N;
  requesting : gset N;
  processing : gset N;
  retries : prioritizedNumbers;
  rq : resultQueue;
  bdd : gmap N BlockDownloadDetails;
  resultC : bool
}.

Definition newGetBlocksManager (c : blockChain) (target : N) : getBlocksManager :=
  mkManager c target ∅ ∅ newPrioritizedNumbers newResultQueue ∅ false.

Definition with_requesting (m : gset N) (g : getBlocksManager) :=
  mkManager (chain g) (targetBN g) m (processing g) (retries g) (rq g) (bdd g) (resultC g).
Definition with_processing (m : gset N) (g : getBlocksManager) :=
  mkManager (chain g) (targetBN g) (requesting g) m (retries g) (rq g) (bdd g) (resultC g).
Definition with_retries (q : prioritizedNumbers) (g : getBlocksManager) :=
  mkManager (chain g) (targetBN g) (requesting g) (processing g) q (rq g) (bdd g) (resultC g).
Definition with_bdd (d : gmap N BlockDownloadDetails) (g : getBlocksManager) :=
  mkManager (chain g) (targetBN g) (requesting g) (processing g) (retries g) (rq g) d (resultC g).

(** [HandleRequestError]: the loop over [bns] only; the scrub of the result
    queue by stream is commented out in this variant. *)
Definition HandleRequestError (bns : list N) (sid : StreamID) (g : getBlocksManager)
    : getBlocksManager :=
  let '(req, ret) := demote bns (requesting g, retries g) in
  with_retries ret (with_requesting req g).

(** The loop of [HandleRequestResult] from index [i] on; [blockBytes[i]] panics
    when [blockBytes] is shorter than [bns]. *)
Fixpoint result_loop (i : nat) (bns : list N) (blockBytes : list (list Byte.byte))
    (loop : Z) (sid : StreamID) (g : getBlocksManager) : option getBlocksManager :=
  match bns with
  | [] => Some g
  | bn :: bns' =>
      let g := with_requesting (requesting g ∖ {[bn]}) g in
      match blockBytes !! i with
      | None => None
      | Some bytes =>
          if (Z.of_nat (length bytes) <=? 1)%Z
          then result_loop (S i) bns' blockBytes loop sid
                 (with_retries (push bn (retries g)) g)
          else result_loop (S i) bns' blockBytes loop sid
                 (with_bdd (<[bn := mkDetails loop sid]> (bdd g))
                    (with_processing ({[bn]} ∪ processing g) g))
      end
  end.

(** [HandleRequestResult]; the Go method returns the error [nil] on every
    path, so the result is the state alone, [None] being the index panic. *)
Definition HandleRequestResult (bns : list N) (blockBytes sigBytes : list (list Byte.byte))
    (loop : Z) (sid : StreamID) (g : getBlocksManager) : option getBlocksManager :=
  result_loop 0 bns blockBytes loop sid g.

(** [GetDownloadDetails]: a height without an entry reads as the zero value. *)
Definition GetDownloadDetails (blockNumber : N) (g : getBlocksManager) : Z * StreamID :=
  match bdd g !! blockNumber with
  | Some d => (loopID d, streamID d)
  | None => (0%Z, EmptyString)
  end.

(** [SetDownloadDetails]; like [HandleRequestResult] it returns [nil] on
    every path. *)
Definition SetDownloadDetails (bns : list N) (loop : Z) (sid : StreamID)
    (g : getBlocksManager) : getBlocksManager :=
  with_bdd (foldl (λ d bn, <[bn := mkDetails loop sid]> d) (bdd g) bns) g.

(** [HandleInsertResult(blkNum)] and [HandleInsertError(blkNum)] of this
    variant work on one height. *)
Definition HandleInsertResult (blkNum : N) (g : getBlocksManager)
    : getBlocksManager :=
  with_processing (processing g ∖ {[blkNum]}) g.

Definition HandleInsertError (blkNum : N) (g : getBlocksManager)
    : getBlocksManager :=
  let g := with_processing (processing g ∖ {[blkNum]}) g in
  with_retries (push blkNum (retries g)) g.

Definition curHeight (g : getBlocksManager) : N :=
  NumberU64 (CurrentBlock (chain g)).

Section Batches.
(** The two package constants of this variant; both are Go [int]s. *)
Variables BlocksPerRequest SoftQueueCap : Z.

Definition getBatchFromRetries (cap : Z) (g : getBlocksManager)
    : list N * getBlocksManager :=
  let '(requestBNs, q) :=
    retries_loop (Z.to_nat cap) (curHeight g) (retries g) [] in
  (requestBNs, with_retries q g).

Definition getBatchFromUnprocessed (fuel : nat) (cap : Z) (g : getBlocksManager)
    : option (list N) :=
  unprocessed_loop fuel (Z.to_nat cap) (targetBN g) (requesting g) (processing g)
    (succ64 (curHeight g)) [].

Definition availableForMoreTasks (g : getBlocksManager) : bool :=
  (rq_Len (rq g) <? SoftQueueCap)%Z.

Definition addBatchToRequesting (bns : list N) (g : getBlocksManager) :=
  with_requesting (insert_all bns (requesting g)) g.

(** [GetNextBatch] of this variant: the retried heights are subtracted from
    the cap and added to [requesting] only under [if len(bns) > 0]. *)
Definition GetNextBatch (fuel : nat) (g : getBlocksManager)
    : option (list N * getBlocksManager) :=
  let cap := BlocksPerRequest in
  let '(bns, g) := getBatchFromRetries cap g in
  let '(cap, g) :=
    if (0 <? Z.of_nat (length bns))%Z
    then ((cap - Z.of_nat (length bns))%Z, addBatchToRequesting bns g)
    else (cap, g) in
  if availableForMoreTasks g then
    match getBatchFromUnprocessed fuel cap g with
    | None => None
    | Some addBNs => Some (bns ++ addBNs, addBatchToRequesting addBNs g)
    end
  else Some (bns, g).
End Batches.

End TxManager.

(** ** The stream pool *)

(** One scripted answer of the pool to [GetBlockHashes]: the stream that
    served the request and either its hashes or an error. *)
Inductive hashesReply {error : Type} :=
| ReplyHashes (hashes : list N) (stid : StreamID)
| ReplyError (stid : StreamID) (err : error).
Arguments hashesReply : clear implicits.

(** Modelled from the spec: the [syncProtocol] interface (here [streamPool]) is declared in
    another file of the package.  Section 6 lists what the core requires of it:
    [NumStreams], [GetBlockHashes] answering with hashes, a stream id and an
    error, and [RemoveStream], an idempotent eviction.  The pool is
    the set of its live streams together with the answers it is going to give,
    in the order in which the requests reach it. *)
Record streamPool {error : Type} := mkProtocol {
  streams : gset StreamID;
  replies : list (hashesReply error)
}.
Arguments streamPool : clear implicits.
Arguments mkProtocol {error} _ _.

Section StreamPool.
Context {error : Type}.
Variable noStream : error.

Definition NumStreams (p : streamPool error) : Z := Z.of_nat (size (streams p)).

Definition RemoveStream (sid : StreamID) (p : streamPool error) : streamPool error :=
  mkProtocol (streams p ∖ {[sid]}) (replies p).

Definition GetBlockHashes (bns : list N) (p : streamPool error)
    : hashesReply error * streamPool error :=
  match replies p with
  | [] => (ReplyError EmptyString noStream, p)
  | r :: rs => (r, mkProtocol (streams p) rs)
  end.
End StreamPool.

(** A method of the manager, run in a node that holds the manager next to the
    stream pool.  Neither variant of [getBlocksManager] has a field through
    which the pool can be reached, so the pool is passed along as it is. *)
Definition on_manager {G error : Type} (method : G → G)
    (node : G * streamPool error) : G * streamPool error :=
  (method node.1, node.2).

(** The same for a method that can panic. *)
Definition on_manager_partial {G error : Type} (method : G → option G)
    (node : G * streamPool error) : option (G * streamPool error) :=
  g' ← method node.1; Some (g', node.2).

(** ** The short-range helper *)

Module ShortRange.

(** Modelled from the spec: the type [blockHashResults] with
    [newBlockHashResults] and [addResult] is declared in another file of
    the package.  Section 4.3 gives it as the collection, for a fixed window of
    heights, of one hash response per peer together with the peer's stream
    id. *)
Record blockHashResults := mkHashResults {
  window : list N;
  results : list (list N * StreamID)
}.

Definition newBlockHashResults (bns : list N) : blockHashResults :=
  mkHashResults bns [].

Definition addResult (hashes : list N) (sid : StreamID) (r : blockHashResults)
    : blockHashResults :=
  mkHashResults (window r) (results r ++ [(hashes, sid)]).

Record Config := mkConfig { Concurrency : Z }.

Section Helper.
Context {error : Type}.
(** [errors.New], the error of the context, and the pool's error when it
    has no answer left. *)
Variable errors_New : string → error.
Variable ctx_Err : error.
Variable noStream : error.
(** [errors.As(err, &emptySigVerifyErr)] on a non-nil error: the variable
    [emptySigVerifyErr] and its type are declared in another file of
    the package. *)
Variable errors_As_emptySigVerifyErr : error → bool.
(** [results.computeLongestHashChain()], declared in another file of the
    package. *)
Variable computeLongestHashChain : blockHashResults → list N * list StreamID.

(** [ctx] is seen through the one test the helper makes on it after the
    barrier: whether it is done. *)
Record srHelper := mkHelper {
  syncProtocol : streamPool error;
  config : Config;
  ctxDone : bool
}.

Definition with_protocol (p : streamPool error) (sh : srHelper) : srHelper :=
  mkHelper p (config sh) (ctxDone sh).

Definition checkPrerequisites (sh : srHelper) : option error :=
  if (NumStreams (syncProtocol sh) <? Concurrency (config sh))%Z
  then Some (errors_New "not enough streams")
  else None.

(** The Go triple [(hashes, stid, err)], with [err = nil] as [None]. *)
Definition doGetBlockHashesRequest (bns : list N) (sh : srHelper)
    : (list N * StreamID * option error) * srHelper :=
  let '(reply, p) := GetBlockHashes noStream bns (syncProtocol sh) in
  match reply with
  | ReplyError stid err => (([], stid, Some err), with_protocol p sh)
  | ReplyHashes hashes stid =>
      if bool_decide (length hashes ≠ length bns) then
        let err := errors_New "unexpected get block hashes result delivered" in
        (([], stid, Some err), with_protocol (RemoveStream stid p) sh)
      else ((hashes, stid, None), with_protocol p sh)
  end.

(** The [Concurrency] workers of [getHashChain], taken one after the other
    in the order in which their requests reach the pool; [n] workers are
    left.  A worker whose request failed returns without recording. *)
Fixpoint hash_workers (n : nat) (bns : list N) (sh : srHelper)
    (res : blockHashResults) : srHelper * blockHashResults :=
  match n with
  | O => (sh, res)
  | S n' =>
      let '((hashes, stid, err), sh) := doGetBlockHashesRequest bns sh in
      match err with
      | Some _ => hash_workers n' bns sh res
      | None => hash_workers n' bns sh (addResult hashes stid res)
      end
  end.

(** [getHashChain]; [None] is the panic of [wg.Add] on a negative
    [Concurrency]. *)
Definition getHashChain (bns : list N) (sh : srHelper)
    : option ((list N * list StreamID * option error) * srHelper) :=
  if (Concurrency (config sh) <? 0)%Z then None
  else
    let '(sh, res) :=
      hash_workers (Z.to_nat (Concurrency (config sh))) bns sh
        (newBlockHashResults bns) in
    if ctxDone sh then Some (([], [], Some ctx_Err), sh)
    else
      let '(hashChain, wl) := computeLongestHashChain res in
      Some ((hashChain, wl, None), sh).

Definition removeStreams (sts : list StreamID) (sh : srHelper) : srHelper :=
  foldl (λ sh st, with_protocol (RemoveStream st (syncProtocol sh)) sh) sh sts.

(** [blameAllStreams]; [err] may be [nil], on which [errors.As] is false. *)
Definition blameAllStreams (blocks : list Block) (errIndex : Z)
    (err : option error) : bool :=
  if from_option errors_As_emptySigVerifyErr false err
     && (errIndex =? Z.of_nat (length blocks) - 1)%Z
  then false
  else true.

(** Modelled from the spec: the function that calls [checkPrerequisites]
    and then runs the short-range cycle is in another file of the package.
    Section 7 gives the prerequisite failure as returned before the cycle
    starts, the cycle not being run.  [cycle] is the rest of the cycle. *)
Definition runCycle {A} (cycle : srHelper → (error + A) * srHelper)
    (sh : srHelper) : (error + A) * srHelper :=
  match checkPrerequisites sh with
  | Some err => (inl err, sh)
  | None => cycle sh
  end.
End Helper.

(** How a call that allocates and whose loop is run on fuel ends: it
    returns, it panics, the runtime stops the process for want of memory, or
    the fuel runs out. *)
Inductive outcome (A : Type) :=
| Returned (a : A)
| Panicked
| OutOfMemory
| OutOfFuel.
Arguments Returned {A} a.
Arguments Panicked {A}.
Arguments OutOfMemory {A}.
Arguments OutOfFuel {A}.

(** [make([]uint64, 0, n)], as the runtime's [makeslice] does it for an
    element of 8 bytes: it panics when the capacity is negative or when its
    size in bytes is beyond [maxAlloc] (a constant of the platform, below
    [2^64]; the overflow of the multiplication is the same test), and
    otherwise asks [mallocgc] for the bytes, which either gives them or stops
    the process. *)
Definition makeslice_uint64 (maxAlloc : Z) (mallocgc : Z → bool) (n : Z)
    : outcome unit :=
  if ((n <? 0) || (maxAlloc <? 8 * n))%Z then Panicked
  else if mallocgc (8 * n)%Z then Returned ()
  else OutOfMemory.

(** The loop [for bn := ...; bn <= bound; bn++ { res = append(res, bn) }] of
    [prepareBlockHashNumbers]; [bn++] wraps, so the loop is run on fuel. *)
Fixpoint hash_numbers_loop (fuel : nat) (bn bound : N) (res : list N)
    : option (list N) :=
  if (bn <=? bound)%N then
    match fuel with
    | O => None
    | S fuel' => hash_numbers_loop fuel' (succ64 bn) bound (res ++ [bn])
    end
  else Some res.

(** [prepareBlockHashNumbers]; [BlockHashesPerRequest] is a package constant,
    a Go [int].  [make([]uint64, 0, n)] comes first and may end the call;
    [curNumber + 1] and [curNumber + uint64(n)] wrap. *)
Definition prepareBlockHashNumbers (maxAlloc : Z) (mallocgc : Z → bool)
    (BlockHashesPerRequest : Z) (fuel : nat)
    (curNumber : N) (count : Z) : outcome (list N) :=
  let n := if (BlockHashesPerRequest <? count)%Z
           then BlockHashesPerRequest else count in
  match makeslice_uint64 maxAlloc mallocgc n with
  | Panicked => Panicked
  | OutOfMemory => OutOfMemory
  | OutOfFuel => OutOfFuel
  | Returned _ =>
      match hash_numbers_loop fuel (succ64 curNumber)
              ((curNumber + Z.to_N n) mod uint64_mod)%N [] with
      | None => OutOfFuel
      | Some res => Returned res
      end
  end.

End ShortRange.

(** ** Transactions of the staged sync
    ([initDB] and [runSyncCycle] of syncing.go, [Unwind] and [Prune] of the
    last-mile stage) *)

Module StagedSync.

(** The calls these functions make on the database, on the transaction they
    hold, and on the parts of the sync that live in other files. *)
Inductive call :=
| BeginRw                      (* db.BeginRw(ctx) *)
| Rollback                     (* tx.Rollback() *)
| Commit                       (* tx.Commit() *)
| CreateBucket (name : string) (* tx.CreateBucket(name) *)
| UnwindDone                   (* u.Done(tx) *)
| Run (withTx : bool)          (* s.Run(s.DB(), tx, initialCycle); is tx non-nil *)
| purgeOldBlocksFromCache.     (* s.purgeOldBlocksFromCache() *)

#[global] Instance call_eq_dec : EqDecision call.
Proof. solve_decision. Defined.

(** The bucket names of syncing.go. *)
Definition BlockHashesBucket : string := "BlockHashes".
Definition BeaconBlockHashesBucket : string := "BeaconBlockHashes".
Definition DownloadedBlocksBucket : string := "BlockBodies".
Definition BeaconDownloadedBlocksBucket : string := "BeaconBlockBodies".
Definition LastMileBlocksBucket : string := "LastMileBlocks".
Definition StageProgressBucket : string := "StageProgress".

Definition Buckets : list string :=
  [BlockHashesBucket; BeaconBlockHashesBucket; DownloadedBlocksBucket;
   BeaconDownloadedBlocksBucket; LastMileBlocksBucket; StageProgressBucket].

Section Calls.
Context {error : Type}.
(** The world outside: the error ([None] for [nil]) with which the last call
    of a history of calls returns. *)
Variable env : list call → option error.
(** [GetStageName] and the wrapping [fmt.Errorf("failed to initiate db: %w",
    err)]. *)
Variable GetStageName : string → bool → bool → string.
Variable failed_to_initiate_db : error → error.

(** One call: it is appended to the history, and the world answers. *)
Definition perform (c : call) (tr : list call) : option error * list call :=
  (env (tr ++ [c]), tr ++ [c]).

(** The loop of [initDB] over the bucket names. *)
Fixpoint create_buckets (names : list string) (tr : list call)
    : option error * list call :=
  match names with
  | [] => (None, tr)
  | name :: names' =>
      let '(err, tr) := perform (CreateBucket (GetStageName name false false)) tr in
      match err with
      | Some e => (Some e, tr)
      | None =>
          let '(err, tr) :=
            perform (CreateBucket (GetStageName name true false)) tr in
          match err with
          | Some e => (Some e, tr)
          | None => create_buckets names' tr
          end
      end
  end.

(** [initDB]: the deferred [tx.Rollback()] runs last on every path after a
    successful [BeginRw]. *)
Definition initDB (tr : list call) : option error * list call :=
  let '(errRW, tr) := perform BeginRw tr in
  match errRW with
  | Some e => (Some e, tr)
  | None =>
      let '(res, tr) :=
        let '(err, tr) := create_buckets Buckets tr in
        match err with
        | Some e => (Some e, tr)
        | None =>
            let '(err, tr) := perform Commit tr in
            match err with
            | Some e => (Some (failed_to_initiate_db e), tr)
            | None => (None, tr)
            end
        end in
      (res, (perform Rollback tr).2)
  end.

(** The part of [runSyncCycle] after the transaction is set up; [withTx] is
    [tx != nil]. *)
Definition run_and_commit (withTx : bool) (tr : list call) : list call :=
  let '(syncErr, tr) := perform (Run withTx) tr in
  match syncErr with
  | Some _ => (perform purgeOldBlocksFromCache tr).2
  | None => if withTx then (perform Commit tr).2 else tr
  end.

(** [runSyncCycle]; the two sizes are [uint64] fields of the sync. *)
Definition runSyncCycle (MaxBlocksPerSyncCycle MaxMemSyncCycleSize : N)
    (tr : list call) : list call :=
  let canRunCycleInOneTransaction :=
    (0 <? MaxBlocksPerSyncCycle)%N
    && (MaxBlocksPerSyncCycle <=? MaxMemSyncCycleSize)%N in
  if canRunCycleInOneTransaction then
    let '(err, tr) := perform BeginRw tr in
    match err with
    | Some _ => tr
    | None => (perform Rollback (run_and_commit true tr)).2
    end
  else run_and_commit false tr.

(** [StageLastMile.Unwind]; [useExternalTx] is [tx != nil]. *)
Definition Unwind (useExternalTx : bool) (tr : list call)
    : option error * list call :=
  if useExternalTx then perform UnwindDone tr
  else
    let '(err, tr) := perform BeginRw tr in
    match err with
    | Some e => (Some e, tr)
    | None =>
        let '(res, tr) :=
          let '(err, tr) := perform UnwindDone tr in
          match err with
          | Some e => (Some e, tr)
          | None => perform Commit tr
          end in
        (res, (perform Rollback tr).2)
    end.

(** [StageLastMile.Prune]. *)
Definition Prune (useExternalTx : bool) (tr : list call)
    : option error * list call :=
  if useExternalTx then (None, tr)
  else
    let '(err, tr) := perform BeginRw tr in
    match err with
    | Some e => (Some e, tr)
    | None =>
        let '(res, tr) := perform Commit tr in
        (res, (perform Rollback tr).2)
    end.
End Calls.

End StagedSync.

(** ** Vocabulary of the statements *)

(** The postcondition the specification gives for
    [HandleRequestError(bns, err, sid)], on a node made of the manager's sets
    and the stream pool: every height of [bns] has left [requesting] and is in
    [retries]; every result that was queued under [sid] has left the result
    queue and [processing] and its height is in [retries]; and the pool no
    longer holds [sid]. *)
Definition HandleRequestError_claimed (bns : list N) (sid : StreamID)
    (rq_before : resultQueue)
    (requesting' processing' : gset N) (retries' : prioritizedNumbers)
    (rq_after : resultQueue) (streams_after : gset StreamID) : Prop :=
  (∀ bn, bn ∈ bns → (bn ∉ requesting') ∧ bn ∈ retries') ∧
  (∀ r, r ∈ rq_before → stid r = sid →
        (r ∉ rq_after) ∧ (getBlockNumber r ∉ processing') ∧
        getBlockNumber r ∈ retries') ∧
  (sid ∉ streams_after).

(** The heights of [bns] whose answer, at the same index of [xs], satisfies
    [P]. *)
Definition heights_where {A} (P : A → Prop) `{∀ x, Decision (P x)}
    (bns : list N) (xs : list A) : list N :=
  (filter (λ p, P p.2) (zip bns xs)).*1.

(** What the specification promises of [HandleRequestResult] after the loop:
    a signal is buffered on [resultC], and every height whose block arrived has
    an entry in the result queue. *)
Definition HandleRequestResult_claimed_queueing (arrived : list N)
    (rq_after : resultQueue) (resultC_after : bool) : Prop :=
  resultC_after = true ∧
  ∀ bn, bn ∈ arrived → ∃ r, r ∈ rq_after ∧ getBlockNumber r = bn.

(** A height that [getBatchFromUnprocessed] may hand out: in neither map. *)
Definition free (requesting processing : gset N) (bn : N) : Prop :=
  (bn ∉ requesting) ∧ (bn ∉ processing).

#[global] Instance free_dec requesting processing bn :
  Decision (free requesting processing bn).
Proof. unfold free. apply _. Defined.

(** The [len] heights from [lo] on, ascending. *)
Fixpoint heights_from (lo : N) (len : nat) : list N :=
  match len with
  | O => []
  | S len' => lo :: heights_from (lo + 1) len'
  end.

(** A manager at head 10 with target 20, where 12 is being requested, 13 is
    being processed, and 5 and 11 wait in the retry queue. *)
Definition sample_manager : QueueManager.getBlocksManager :=
  QueueManager.mkManager (mkChain (mkBlock 10 0)) 20 {[12%N]} {[13%N]}
    [5%N; 11%N] [] false.

(** What the specification says of a call of [GetNextBatch] that takes the
    manager from [g] to [g'] and returns [bns] ([cap] is [BlocksPerRequest],
    [soft] is [SoftQueueCap]): [bns] has at most [cap] heights; it opens with
    the heights above the head among the lowest heights drained from
    [retries]; the rest, which is there only when the result queue is shorter
    than [soft], is made of heights of [(head, targetBN]] that are in neither
    map and were never requested; and every height of [bns] is in
    [requesting] on return.  A height is in [retries] only because a request
    for it, or the insertion of its block, has failed: a height that waits
    there has been requested. *)
Definition GetNextBatch_claimed (cap soft : Z)
    (g : QueueManager.getBlocksManager) (bns : list N)
    (g' : QueueManager.getBlocksManager) : Prop :=
  (Z.of_nat (length bns) ≤ cap)%Z ∧
  (∀ bn, bn ∈ bns → bn ∈ QueueManager.requesting g') ∧
  ∃ k fresh,
    QueueManager.retries g' = drop k (QueueManager.retries g)
    ∧ bns = filter (λ bn, (QueueManager.curHeight g < bn)%N)
              (take k (QueueManager.retries g)) ++ fresh
    ∧ (fresh ≠ [] → (rq_Len (QueueManager.rq g) < soft)%Z)
    ∧ ∀ bn, bn ∈ fresh →
        (QueueManager.curHeight g < bn ≤ QueueManager.targetBN g)%N
        ∧ (bn ∉ QueueManager.requesting g)
        ∧ (bn ∉ QueueManager.processing g)
        ∧ (bn ∉ QueueManager.retries g).

(** A manager at head 10 with target 20 and nothing in the maps, whose retry
    queue holds two stale heights, 5 and 6, below 11 and 12. *)
Definition stale_manager : QueueManager.getBlocksManager :=
  QueueManager.mkManager (mkChain (mkBlock 10 0)) 20 ∅ ∅
    [5%N; 6%N; 11%N; 12%N] [] false.

(** The postcondition the specification gives for
    [HandleInsertError(results, n)]: the heights of [results[0..n)] have left
    [processing]; the height of [results[n]] has left [processing] and is in
    [retries]; every result that was queued under the stream of [results[n]]
    has left the result queue and [processing] and its height is in
    [retries]; the pool no longer holds that stream; and [results[n+1..]] are
    in the result queue. *)
Definition HandleInsertError_claimed (results : list blockResult) (n : nat)
    (rq_before : resultQueue)
    (processing' : gset N) (retries' : prioritizedNumbers)
    (rq_after : resultQueue) (streams_after : gset StreamID) : Prop :=
  ∃ errResult, results !! n = Some errResult ∧
    (∀ r, r ∈ take n results → getBlockNumber r ∉ processing') ∧
    (getBlockNumber errResult ∉ processing') ∧
    (getBlockNumber errResult ∈ retries') ∧
    (∀ r, r ∈ rq_before → stid r = stid errResult →
          (r ∉ rq_after) ∧ (getBlockNumber r ∉ processing') ∧
          getBlockNumber r ∈ retries') ∧
    (stid errResult ∉ streams_after) ∧
    (∀ r, r ∈ drop (S n) results → r ∈ rq_after).

(** The state on which [HandleInsertError] starts its scrub of the
    offender's stream. *)
Definition before_scrub (results : list blockResult) (n : nat)
    (errResult : blockResult) (g : QueueManager.getBlocksManager)
    : QueueManager.getBlocksManager :=
  QueueManager.mkManager (QueueManager.chain g) (QueueManager.targetBN g)
    (QueueManager.requesting g)
    (delete_all (getBlockNumber <$> take n results) (QueueManager.processing g)
       ∖ {[getBlockNumber errResult]})
    (push (getBlockNumber errResult) (QueueManager.retries g))
    (QueueManager.reenqueue (drop (S n) results) (QueueManager.rq g))
    (QueueManager.resultC g).

(** The answers the workers of [getHashChain] record, and the streams they
    evict, among the answers [served] by the pool for the window [bns]. *)
Definition recorded {error} (bns : list N) (served : list (hashesReply error))
    : list (list N * StreamID) :=
  omap (λ r, match r with
             | ReplyHashes hashes sid =>
                 if decide (length hashes = length bns)
                 then Some (hashes, sid) else None
             | ReplyError _ _ => None
             end) served.

Definition evicted {error} (bns : list N) (served : list (hashesReply error))
    : list StreamID :=
  omap (λ r, match r with
             | ReplyHashes hashes sid =>
                 if decide (length hashes = length bns)
                 then None else Some sid
             | ReplyError _ _ => None
             end) served.

(** The three tracking sets of a manager keep apart: no height is both being
    requested and being processed, and a height waits in the retry queue at
    most once and only while it is in neither map. *)
Definition tracking_disjoint (requesting processing : gset N)
    (retries : prioritizedNumbers) : Prop :=
  requesting ## processing
  ∧ NoDup retries
  ∧ ∀ bn, bn ∈ retries → (bn ∉ requesting) ∧ (bn ∉ processing).

(** The manager that records download details, seen as a manager that feeds
    the result queue: the download details are left out. *)
Definition forget_details (t : TxManager.getBlocksManager)
    : QueueManager.getBlocksManager :=
  QueueManager.mkManager (TxManager.chain t) (TxManager.targetBN t)
    (TxManager.requesting t) (TxManager.processing t) (TxManager.retries t)
    (TxManager.rq t) (TxManager.resultC t).

(** The [CreateBucket] calls of a complete [initDB], in order: for every
    bucket name the plain bucket, then the beacon one. *)
Definition bucket_calls (GetStageName : string → bool → bool → string)
    (names : list string) : list StagedSync.call :=
  names ≫= λ name,
    [StagedSync.CreateBucket (GetStageName name false false);
     StagedSync.CreateBucket (GetStageName name true false)].

(** A call that neither opens nor ends a transaction. *)
Definition plain_call (c : StagedSync.call) : Prop :=
  c ≠ StagedSync.BeginRw ∧ c ≠ StagedSync.Rollback ∧ c ≠ StagedSync.Commit.

(** The calls of a function that opens its own transaction: [BeginRw]
    first, the deferred [Rollback] last and nowhere else, no second [BeginRw],
    and [Commit], if it is called at all, as the last call before the
    [Rollback]. *)
Definition own_transaction (calls : list StagedSync.call) : Prop :=
  ∃ body, calls = StagedSync.BeginRw :: body ++ [StagedSync.Rollback]
    ∧ (StagedSync.BeginRw ∉ body) ∧ (StagedSync.Rollback ∉ body)
    ∧ ∀ before after, body = before ++ StagedSync.Commit :: after → after = [].

(** The calls of a function that leaves transactions alone. *)
Definition no_transaction (calls : list StagedSync.call) : Prop :=
  (StagedSync.BeginRw ∉ calls) ∧ (StagedSync.Rollback ∉ calls)
  ∧ (StagedSync.Commit ∉ calls).

(** * Properties *)

(** Reading a field of a manager, or of the helper, that is given by its
    constructor. *)
Ltac queue_fields :=
  cbn [QueueManager.chain QueueManager.targetBN QueueManager.requesting
       QueueManager.processing QueueManager.retries QueueManager.rq
       QueueManager.resultC].

Tactic Notation "queue_fields_in" hyp(H) :=
  cbn [QueueManager.chain QueueManager.targetBN QueueManager.requesting
       QueueManager.processing QueueManager.retries QueueManager.rq
       QueueManager.resultC] in H.

Ltac tx_fields :=
  cbn [TxManager.chain TxManager.targetBN TxManager.requesting
       TxManager.processing TxManager.retries TxManager.rq TxManager.bdd
       TxManager.resultC].

Ltac helper_fields :=
  cbn [ShortRange.syncProtocol ShortRange.config ShortRange.ctxDone
       ShortRange.window ShortRange.results streams replies].

(** ** The retry queue is an ascending multiset *)

Section RetryQueue.
Implicit Types (bn : N) (q : prioritizedNumbers) (bns : list N).

Lemma push_perm bn q : push bn q ≡ₚ bn :: q.
Proof.
  induction q as [|x q IH]; simpl; [done|].
  destruct (bn <=? x)%N; [done|].
  rewrite IH. apply Permutation_swap.
Qed.

Lemma push_all_perm bns q : push_all bns q ≡ₚ bns ++ q.
Proof.
  unfold push_all. revert q.
  induction bns as [|bn bns IH]; intros q; simpl; [done|].
  rewrite IH, push_perm. by rewrite Permutation_middle.
Qed.

Lemma elem_of_push bn x q : x ∈ push bn q ↔ x = bn ∨ x ∈ q.
Proof. rewrite push_perm. apply elem_of_cons. Qed.

Lemma elem_of_push_all bns x q : x ∈ push_all bns q ↔ x ∈ bns ∨ x ∈ q.
Proof. rewrite push_all_perm. apply elem_of_app. Qed.

Lemma push_sorted bn q : StronglySorted N.le q → StronglySorted N.le (push bn q).
Proof.
  induction 1 as [|x q Hq IH Hx]; simpl.
  - repeat constructor.
  - destruct (bn <=? x)%N eqn:Hle.
    + apply N.leb_le in Hle. constructor; [by constructor|].
      constructor; [done|].
      eapply Forall_impl; [exact Hx|]. intros y Hy. simpl in Hy. lia.
    + apply N.leb_gt in Hle. constructor; [done|].
      apply Forall_forall. intros y Hy. apply elem_of_push in Hy as [->|Hy]; [lia|].
      by eapply Forall_forall in Hx.
Qed.

Lemma push_all_sorted bns q :
  StronglySorted N.le q → StronglySorted N.le (push_all bns q).
Proof.
  unfold push_all. revert q.
  induction bns as [|bn bns IH]; intros q Hq; simpl; [done|].
  by apply IH, push_sorted.
Qed.

Lemma push_all_app bns1 bns2 q :
  push_all (bns1 ++ bns2) q = push_all bns2 (push_all bns1 q).
Proof. unfold push_all. apply foldl_app. Qed.

(** The first [pop] of a non-empty ascending queue is a least element. *)
Lemma pop_least x q' q :
  StronglySorted N.le q → pop q = (x, q') → q ≠ [] →
  q = x :: q' ∧ ∀ y, y ∈ q → (x <= y)%N.
Proof.
  intros Hq Hpop Hne. destruct q as [|z q]; [done|].
  simpl in Hpop. simplify_eq. split; [done|].
  apply StronglySorted_cons in Hq as [Hx _].
  intros y [->|Hy]%elem_of_cons; [lia|]. by eapply Forall_forall in Hx.
Qed.
End RetryQueue.

(** ** The loops over maps *)

Section MapLoops.
Implicit Types (m : gset N) (bns : list N) (q : prioritizedNumbers).

Lemma delete_all_difference bns m : delete_all bns m = m ∖ list_to_set bns.
Proof.
  unfold delete_all. revert m.
  induction bns as [|bn bns IH]; intros m; simpl.
  - set_solver.
  - rewrite IH. set_solver.
Qed.

Lemma insert_all_union bns m : insert_all bns m = list_to_set bns ∪ m.
Proof.
  unfold insert_all. revert m.
  induction bns as [|bn bns IH]; intros m; simpl.
  - set_solver.
  - rewrite IH. set_solver.
Qed.

Lemma demote_split bns m q :
  demote bns (m, q) = (delete_all bns m, push_all bns q).
Proof.
  unfold demote, delete_all, push_all. revert m q.
  induction bns as [|bn bns IH]; intros m q; simpl; [done|].
  apply IH.
Qed.
End MapLoops.

(** ** The result queue *)

Section ResultQueue.
Implicit Types (q : resultQueue) (r : blockResult) (sid : StreamID).

Lemma removeResultsByStreamID_rest sid q r :
  r ∈ (removeResultsByStreamID sid q).2 ↔ r ∈ q ∧ stid r ≠ sid.
Proof. unfold removeResultsByStreamID. simpl. rewrite list_elem_of_filter. tauto. Qed.

Lemma removeResultsByStreamID_removed sid q bn :
  bn ∈ (removeResultsByStreamID sid q).1 ↔
  ∃ r, r ∈ q ∧ stid r = sid ∧ getBlockNumber r = bn.
Proof.
  unfold removeResultsByStreamID. simpl. rewrite list_elem_of_fmap.
  setoid_rewrite list_elem_of_filter. naive_solver.
Qed.

(** Once a stream is scrubbed, scrubbing it again finds nothing. *)
Lemma removeResultsByStreamID_again sid q :
  removeResultsByStreamID sid (removeResultsByStreamID sid q).2
  = ([], (removeResultsByStreamID sid q).2).
Proof.
  unfold removeResultsByStreamID. simpl. f_equal.
  - induction q as [|r q IH]; [done|].
    rewrite (filter_cons _ r). case_decide; [|done].
    rewrite (filter_cons _ r). case_decide; done.
  - by apply list_filter_filter_r.
Qed.

Lemma elem_of_rq_push r x q :
  x ∈ rq_push r q → x = r ∨ x ∈ q.
Proof.
  induction q as [|y q IH]; simpl.
  - intros ->%list_elem_of_singleton. by left.
  - destruct (getBlockNumber r <? getBlockNumber y)%N.
    { intros [->|?]%elem_of_cons; auto. }
    destruct (getBlockNumber r =? getBlockNumber y)%N; [auto|].
    intros [->|Hx]%elem_of_cons; [right; left|].
    destruct (IH Hx) as [->|?]; [by left|right; by right].
Qed.

Lemma rq_push_keeps r x q : x ∈ q → x ∈ rq_push r q.
Proof.
  induction q as [|y q IH]; simpl; [by intros ?%elem_of_nil|].
  intros Hx.
  destruct (getBlockNumber r <? getBlockNumber y)%N; [by right|].
  destruct (getBlockNumber r =? getBlockNumber y)%N; [done|].
  apply elem_of_cons in Hx as [->|Hx]; [left|right; auto].
Qed.

(** After a push the height of the pushed result is queued: by the result
    itself, or by the entry that was there first. *)
Lemma rq_push_height r q :
  ∃ x, x ∈ rq_push r q ∧ getBlockNumber x = getBlockNumber r
       ∧ (x = r ∨ x ∈ q).
Proof.
  induction q as [|y q IH]; simpl.
  - exists r. split; [left|]. auto.
  - destruct (getBlockNumber r <? getBlockNumber y)%N.
    { exists r. split; [left|]. auto. }
    destruct (getBlockNumber r =? getBlockNumber y)%N eqn:He.
    { apply N.eqb_eq in He. exists y. split; [left|]. split; [done|]. right; left. }
    destruct IH as (x & Hx & Hh & Hor). exists x. split; [by right|].
    split; [done|]. destruct Hor; [by left|right; by right].
Qed.

(** A result whose height is not queued yet is queued by the push. *)
Lemma rq_push_fresh r q :
  (∀ x, x ∈ q → getBlockNumber x ≠ getBlockNumber r) → r ∈ rq_push r q.
Proof.
  induction q as [|y q IH]; simpl; intros Hq; [left|].
  destruct (getBlockNumber r <? getBlockNumber y)%N; [left|].
  destruct (getBlockNumber r =? getBlockNumber y)%N eqn:He.
  { apply N.eqb_eq in He. exfalso. eapply Hq; [left|done]. }
  right. apply IH. intros x Hx. apply Hq. by right.
Qed.

Lemma addBlockResults_keeps blocks sid q x :
  x ∈ q → x ∈ addBlockResults blocks sid q.
Proof.
  unfold addBlockResults. revert q.
  induction blocks as [|ob blocks IH]; intros q Hx; simpl; [done|].
  apply IH. destruct ob; [by apply rq_push_keeps|done].
Qed.

Lemma elem_of_addBlockResults blocks sid q x :
  x ∈ addBlockResults blocks sid q →
  x ∈ q ∨ ∃ b, Some b ∈ blocks ∧ x = mkResult b sid.
Proof.
  unfold addBlockResults. revert q.
  induction blocks as [|ob blocks IH]; intros q Hx; simpl in *; [by left|].
  destruct (IH _ Hx) as [Hq|(b & Hb & ->)].
  - destruct ob as [b|]; [|by left].
    apply elem_of_rq_push in Hq as [->|Hq]; [|by left].
    right. exists b. split; [left|done].
  - right. exists b. split; [by right|done].
Qed.

(** Every non-nil block pushed has its height queued afterwards. *)
Lemma addBlockResults_height blocks sid q b :
  Some b ∈ blocks →
  ∃ x, x ∈ addBlockResults blocks sid q ∧ getBlockNumber x = NumberU64 b.
Proof.
  unfold addBlockResults. revert q.
  induction blocks as [|ob blocks IH]; intros q Hb; simpl.
  { by apply elem_of_nil in Hb. }
  apply elem_of_cons in Hb as [<-|Hb]; [|by apply IH].
  destruct (rq_push_height (mkResult b sid) q) as (x & Hx & Hh & _).
  exists x. split; [|done].
  by apply (addBlockResults_keeps blocks sid).
Qed.
End ResultQueue.

(** ** [HandleRequestError] *)

Section RequestError.
Import QueueManager.

(** The state [HandleRequestError] leaves, field by field. *)
Lemma HandleRequestError_fields bns sid g :
  HandleRequestError bns sid g =
  let removed := (removeResultsByStreamID sid (rq g)).1 in
  mkManager (chain g) (targetBN g)
    (delete_all bns (requesting g))
    (delete_all removed (processing g))
    (push_all removed (push_all bns (retries g)))
    (removeResultsByStreamID sid (rq g)).2
    (resultC g).
Proof.
  unfold HandleRequestError. rewrite demote_split.
  unfold removeResultsByStreamID. cbn [rq with_retries with_requesting].
  cbn [with_rq processing retries]. rewrite demote_split. reflexivity.
Qed.

Lemma TxHandleRequestError_fields bns sid (t : TxManager.getBlocksManager) :
  TxManager.HandleRequestError bns sid t =
  TxManager.mkManager (TxManager.chain t) (TxManager.targetBN t)
    (delete_all bns (TxManager.requesting t)) (TxManager.processing t)
    (push_all bns (TxManager.retries t)) (TxManager.rq t) (TxManager.bdd t)
    (TxManager.resultC t).
Proof. unfold TxManager.HandleRequestError. by rewrite demote_split. Qed.
End RequestError.


Section RequestErrorClaims.
Import QueueManager.

(** C1 (as amended).  [HandleRequestError(bns, err, sid)] of the manager
    that feeds the result queue removes every height of [bns] from
    [requesting] and pushes it into [retries]; every result queued under
    [sid] is removed from the result queue, its height removed from
    [processing] and pushed into [retries]; the stream pool is left as it
    is, the manager having no handle on it.  The manager that records
    download details does the first step only: its result queue and
    [processing] are unchanged. *)
Theorem HandleRequestError_requeues {error : Type} (bns : list N)
    (sid : StreamID) (g : getBlocksManager) (t : TxManager.getBlocksManager)
    (p : streamPool error) :
  let removed := (removeResultsByStreamID sid (rq g)).1 in
  let g' := HandleRequestError bns sid g in
  let t' := TxManager.HandleRequestError bns sid t in
  (requesting g' = requesting g ∖ list_to_set bns
   ∧ retries g' = push_all removed (push_all bns (retries g))
   ∧ retries g' ≡ₚ removed ++ bns ++ retries g
   ∧ rq g' = filter (λ r, stid r ≠ sid) (rq g)
   ∧ processing g' = processing g ∖ list_to_set removed
   ∧ (∀ bn, bn ∈ bns → (bn ∉ requesting g') ∧ bn ∈ retries g')
   ∧ (∀ r, r ∈ rq g → stid r = sid →
           (r ∉ rq g') ∧ (getBlockNumber r ∉ processing g') ∧
           getBlockNumber r ∈ retries g')
   ∧ on_manager (HandleRequestError bns sid) (g, p) = (g', p))
  ∧ (TxManager.requesting t' = TxManager.requesting t ∖ list_to_set bns
     ∧ TxManager.retries t' = push_all bns (TxManager.retries t)
     ∧ TxManager.retries t' ≡ₚ bns ++ TxManager.retries t
     ∧ TxManager.rq t' = TxManager.rq t
     ∧ TxManager.processing t' = TxManager.processing t
     ∧ on_manager (TxManager.HandleRequestError bns sid) (t, p) = (t', p)).
Proof.
  intros removed g' t'. subst g' t'.
  rewrite HandleRequestError_fields, TxHandleRequestError_fields.
  queue_fields. tx_fields.
  fold removed. rewrite !delete_all_difference.
  assert (Hnode : ∀ G (f : G → G) (x : G), on_manager f (x, p) = (f x, p))
    by done.
  split; split_and!; try done.
  - by rewrite !push_all_perm.
  - intros bn Hbn. split; [set_solver|].
    apply elem_of_push_all. right. apply elem_of_push_all. by left.
  - intros r Hr Hsid.
    assert (getBlockNumber r ∈ removed) as Hrem.
    { apply removeResultsByStreamID_removed. eauto. }
    split_and!.
    + rewrite removeResultsByStreamID_rest. tauto.
    + set_solver.
    + apply elem_of_push_all. by left.
  - rewrite Hnode, HandleRequestError_fields. cbv zeta.
    by rewrite !delete_all_difference.
  - by rewrite push_all_perm.
  - by rewrite Hnode, TxHandleRequestError_fields, !delete_all_difference.
Qed.

(** C1 (as stated) fails.  On the manager that feeds the result queue, the
    pool still holds the stream after the call; on the manager that records
    download details, the result queued under the stream stays queued and in
    [processing]. *)
Lemma HandleRequestError_claim_fails :
  let head := mkChain (mkBlock 10 0) in
  let queued := [mkResult (mkBlock 12 0) "s1"] in
  let pool : streamPool unit := mkProtocol {["s1"; "s2"]} [] in
  let g := mkManager head 20 {[11%N]} {[12%N]} [] queued false in
  let node' := on_manager (HandleRequestError [11%N] "s1") (g, pool) in
  let t := TxManager.mkManager head 20 {[11%N]} {[12%N]} [] queued ∅ false in
  let node2 := on_manager (TxManager.HandleRequestError [11%N] "s1") (t, pool) in
  ¬ HandleRequestError_claimed [11%N] "s1" (rq g)
      (requesting node'.1) (processing node'.1) (retries node'.1)
      (rq node'.1) (streams node'.2)
  ∧ ¬ HandleRequestError_claimed [11%N] "s1" (TxManager.rq t)
      (TxManager.requesting node2.1) (TxManager.processing node2.1)
      (TxManager.retries node2.1) (TxManager.rq node2.1)
      (streams node2.2).
Proof.
  cbv zeta. split.
  - intros (_ & _ & Hpool). apply Hpool. simpl. set_solver.
  - intros (_ & Hscrub & _).
    destruct (Hscrub (mkResult (mkBlock 12 0) "s1")) as (Hq & _).
    + simpl. left.
    + done.
    + apply Hq. vm_compute. left.
Qed.

(** C7 (as amended).  A second [HandleRequestError] with the same
    arguments leaves [requesting], [processing] and the result queue as the
    first call left them and adds no new height to [retries], but pushes
    every height of [bns] into [retries] once more; it is a no-op exactly
    when [bns] is empty. *)
Theorem HandleRequestError_repeated (bns : list N) (sid : StreamID)
    (g : getBlocksManager) :
  let g1 := HandleRequestError bns sid g in
  let g2 := HandleRequestError bns sid g1 in
  requesting g2 = requesting g1
  ∧ processing g2 = processing g1
  ∧ rq g2 = rq g1
  ∧ chain g2 = chain g1 ∧ targetBN g2 = targetBN g1 ∧ resultC g2 = resultC g1
  ∧ retries g2 = push_all bns (retries g1)
  ∧ retries g2 ≡ₚ bns ++ retries g1
  ∧ (∀ bn, bn ∈ retries g2 ↔ bn ∈ retries g1)
  ∧ (g2 = g1 ↔ bns = []).
Proof.
  intros g1 g2.
  assert (Hg2 : g2 = mkManager (chain g1) (targetBN g1) (requesting g1)
                  (processing g1) (push_all bns (retries g1)) (rq g1) (resultC g1)).
  { subst g2. rewrite (HandleRequestError_fields bns sid g1).
    subst g1. rewrite (HandleRequestError_fields bns sid g).
    queue_fields.
    rewrite removeResultsByStreamID_again. cbn [fst snd].
    rewrite !delete_all_difference. cbn [list_to_set].
    f_equal; set_solver. }
  assert (Hin : ∀ bn, bn ∈ bns → bn ∈ retries g1).
  { intros bn Hbn. subst g1. rewrite HandleRequestError_fields.
    cbn [retries]. apply elem_of_push_all. right.
    apply elem_of_push_all. by left. }
  rewrite Hg2. queue_fields.
  split_and!; try done.
  - apply push_all_perm.
  - intros bn. rewrite elem_of_push_all. naive_solver.
  - split.
    + intros Heq. apply (f_equal retries) in Heq. cbn [retries] in Heq.
      apply (f_equal length) in Heq.
      rewrite (Permutation_length (push_all_perm bns _)), length_app in Heq.
      apply length_zero_iff_nil. lia.
    + intros ->. by destruct g1.
Qed.

(** C7 (as stated) fails: after one call on the empty manager with
    [bns = [5]] the retry queue is [[5]], after the second it is [[5; 5]]. *)
Lemma HandleRequestError_not_idempotent :
  let g := newGetBlocksManager (mkChain (mkBlock 0 0)) 10 in
  let g1 := HandleRequestError [5%N] "s1" g in
  retries g1 = [5%N]
  ∧ retries (HandleRequestError [5%N] "s1" g1) = [5%N; 5%N]
  ∧ HandleRequestError [5%N] "s1" g1 ≠ g1.
Proof.
  cbv zeta. split_and!; [reflexivity|reflexivity|].
  intros Heq. apply (f_equal retries) in Heq. discriminate Heq.
Qed.
End RequestErrorClaims.

(** ** [HandleRequestResult] *)

Section HeightsWhere.
Context {A : Type} (P : A → Prop) `{∀ x, Decision (P x)}.

Lemma heights_where_cons bn bns x xs :
  heights_where P (bn :: bns) (x :: xs) =
  if decide (P x) then bn :: heights_where P bns xs else heights_where P bns xs.
Proof.
  unfold heights_where. cbn [zip_with]. rewrite filter_cons. cbn [snd].
  by destruct (decide (P x)).
Qed.

Lemma elem_of_heights_where bn bns xs :
  bn ∈ heights_where P bns xs ↔
  ∃ i x, bns !! i = Some bn ∧ xs !! i = Some x ∧ P x.
Proof.
  unfold heights_where. rewrite list_elem_of_fmap. split.
  - intros ([bn' x] & -> & [HP Hz]%list_elem_of_filter).
    apply elem_of_lookup_zip_with in Hz as (i & y & z & Heq & Hy & Hz).
    simplify_eq. eauto.
  - intros (i & x & Hbn & Hx & HP). exists (bn, x). split; [done|].
    apply list_elem_of_filter. split; [done|].
    apply elem_of_lookup_zip_with. eauto 10.
Qed.
End HeightsWhere.

Section RequestResult.
Import QueueManager.

Lemma result_loop_some i bns blocks g :
  length bns ≤ length (drop i blocks) →
  result_loop i bns blocks g =
  Some (mkManager (chain g) (targetBN g)
          (delete_all bns (requesting g))
          (insert_all (heights_where (λ ob, ob ≠ None) bns (drop i blocks))
             (processing g))
          (push_all (heights_where (λ ob, ob = None) bns (drop i blocks))
             (retries g))
          (rq g) (resultC g)).
Proof.
  revert i g. induction bns as [|bn bns IH]; intros i g Hlen.
  { by destruct g. }
  destruct (blocks !! i) as [ob|] eqn:Hi.
  2:{ apply lookup_ge_None in Hi. rewrite length_drop in Hlen. simpl in Hlen. lia. }
  rewrite (drop_S _ _ _ Hi) in *. simpl in Hlen.
  rewrite !heights_where_cons. cbn [result_loop]. rewrite Hi.
  destruct ob as [b|].
  - rewrite decide_True, decide_False by done.
    rewrite IH by lia. reflexivity.
  - rewrite decide_False, decide_True by naive_solver.
    rewrite IH by lia. reflexivity.
Qed.

Lemma result_loop_panics i bns blocks g :
  length (drop i blocks) < length bns → result_loop i bns blocks g = None.
Proof.
  revert i g. induction bns as [|bn bns IH]; intros i g Hlen; simpl in *; [lia|].
  destruct (blocks !! i) as [ob|] eqn:Hi; [|done].
  rewrite (drop_S _ _ _ Hi) in Hlen. simpl in Hlen.
  destruct ob; apply IH; lia.
Qed.

Lemma Tx_result_loop_some i bns (blockBytes : list (list Byte.byte)) loop sid
    (t : TxManager.getBlocksManager) :
  length bns ≤ length (drop i blockBytes) →
  let arrived :=
    heights_where (λ bytes, ¬ (length bytes ≤ 1)) bns (drop i blockBytes) in
  TxManager.result_loop i bns blockBytes loop sid t =
  Some (TxManager.mkManager (TxManager.chain t) (TxManager.targetBN t)
          (delete_all bns (TxManager.requesting t))
          (insert_all arrived (TxManager.processing t))
          (push_all (heights_where (λ bytes, length bytes ≤ 1) bns
                       (drop i blockBytes)) (TxManager.retries t))
          (TxManager.rq t)
          (foldl (λ d bn, <[bn := TxManager.mkDetails loop sid]> d)
             (TxManager.bdd t) arrived)
          (TxManager.resultC t)).
Proof.
  cbv zeta. revert i t. induction bns as [|bn bns IH]; intros i t Hlen.
  { by destruct t. }
  destruct (blockBytes !! i) as [bytes|] eqn:Hi.
  2:{ apply lookup_ge_None in Hi. rewrite length_drop in Hlen. simpl in Hlen. lia. }
  rewrite (drop_S _ _ _ Hi) in *. simpl in Hlen.
  rewrite !heights_where_cons. cbn [TxManager.result_loop]. rewrite Hi.
  destruct (Z.of_nat (length bytes) <=? 1)%Z eqn:Hle.
  - apply Z.leb_le in Hle.
    destruct (decide (¬ length bytes ≤ 1)) as [Hn|_]; [lia|].
    destruct (decide (length bytes ≤ 1)) as [_|Hn]; [|lia].
    rewrite IH by lia. reflexivity.
  - apply Z.leb_gt in Hle.
    destruct (decide (¬ length bytes ≤ 1)) as [_|Hn]; [|lia].
    destruct (decide (length bytes ≤ 1)) as [Hn|_]; [lia|].
    rewrite IH by lia. reflexivity.
Qed.

Lemma lookup_foldl_insert {V} (v : V) (bns : list N) (d : gmap N V) bn :
  foldl (λ d bn, <[bn := v]> d) d bns !! bn =
  if decide (bn ∈ bns) then Some v else d !! bn.
Proof.
  revert d. induction bns as [|x bns IH]; intros d; cbn [foldl].
  { rewrite decide_False; [done|]. apply not_elem_of_nil. }
  rewrite IH. destruct (decide (bn ∈ bns)) as [Hin|Hnin].
  - rewrite decide_True; [done|]. by right.
  - destruct (decide (bn = x)) as [->|Hne].
    + rewrite decide_True by left. apply lookup_insert_eq.
    + rewrite decide_False by (intros [?|?]%elem_of_cons; done).
      by apply lookup_insert_ne.
Qed.
End RequestResult.

Section RequestResultClaims.
Import QueueManager.

(** C2 (as amended).  With an answer for every index of [bns]:
    [HandleRequestResult(bns, blocks, stid)] of the manager that feeds the
    result queue removes every [bns[i]] from [requesting], pushes it into
    [retries] when [blocks[i]] is nil and puts it into [processing]
    otherwise, then pushes the non-nil blocks into the result queue under
    the stream and leaves a signal buffered on [resultC]; it keeps no
    download details.  [HandleRequestResult(bns, blockBytes, sigBytes,
    loopID, streamID)] of the manager that records download details treats
    [bns[i]] as absent when [blockBytes[i]] has at most one byte, and for the
    others records [{loopID, streamID}]; it neither touches the result queue
    nor signals on [resultC]. *)
Theorem HandleRequestResult_effect (bns : list N) (blocks : list (option Block))
    (blockBytes sigBytes : list (list Byte.byte)) (loop : Z) (sid : StreamID)
    (g : getBlocksManager) (t : TxManager.getBlocksManager)
    (Hblocks : length bns ≤ length blocks)
    (Hbytes : length bns ≤ length blockBytes) :
  (∃ g', HandleRequestResult bns blocks sid g = Some g'
     ∧ requesting g' = requesting g ∖ list_to_set bns
     ∧ retries g' = push_all (heights_where (λ ob, ob = None) bns blocks) (retries g)
     ∧ processing g' =
         list_to_set (heights_where (λ ob, ob ≠ None) bns blocks) ∪ processing g
     ∧ (∀ i bn, bns !! i = Some bn →
          (bn ∉ requesting g')
          ∧ (blocks !! i = Some None → bn ∈ retries g')
          ∧ (∀ b, blocks !! i = Some (Some b) → bn ∈ processing g'))
     ∧ rq g' = addBlockResults blocks sid (rq g)
     ∧ (∀ b, Some b ∈ blocks → ∃ r, r ∈ rq g' ∧ getBlockNumber r = NumberU64 b)
     ∧ (∀ r, r ∈ rq g' → r ∈ rq g ∨ (stid r = sid ∧ Some (block r) ∈ blocks))
     ∧ resultC g' = true)
  ∧ (∃ t', TxManager.HandleRequestResult bns blockBytes sigBytes loop sid t = Some t'
     ∧ TxManager.requesting t' = TxManager.requesting t ∖ list_to_set bns
     ∧ TxManager.retries t' =
         push_all (heights_where (λ bytes, length bytes ≤ 1) bns blockBytes)
           (TxManager.retries t)
     ∧ TxManager.processing t' =
         list_to_set (heights_where (λ bytes, ¬ (length bytes ≤ 1)) bns blockBytes)
           ∪ TxManager.processing t
     ∧ (∀ i bn bytes, bns !! i = Some bn → blockBytes !! i = Some bytes →
          (bn ∉ TxManager.requesting t')
          ∧ (length bytes ≤ 1 → bn ∈ TxManager.retries t')
          ∧ (1 < length bytes →
               bn ∈ TxManager.processing t'
               ∧ TxManager.GetDownloadDetails bn t' = (loop, sid)))
     ∧ TxManager.rq t' = TxManager.rq t
     ∧ TxManager.resultC t' = TxManager.resultC t).
Proof.
  split.
  - unfold HandleRequestResult.
    rewrite result_loop_some by (by rewrite drop_0).
    rewrite drop_0. eexists. split; [reflexivity|].
    cbn [requesting retries processing rq resultC with_rq with_resultC].
    rewrite delete_all_difference, insert_all_union.
    split_and!; try done.
    + intros i bn Hbn. split_and!.
      * apply list_elem_of_lookup_2 in Hbn. set_solver.
      * intros Hb. apply elem_of_push_all. left.
        apply elem_of_heights_where. eauto.
      * intros b Hb. apply elem_of_union. left. apply elem_of_list_to_set.
        apply elem_of_heights_where. eauto.
    + intros b Hb. by apply addBlockResults_height.
    + intros r Hr. apply elem_of_addBlockResults in Hr as [?|(b & Hb & ->)]; auto.
  - unfold TxManager.HandleRequestResult.
    pose proof (Tx_result_loop_some 0 bns blockBytes loop sid t) as Hloop.
    rewrite drop_0 in Hloop. cbv zeta in Hloop. rewrite Hloop by done.
    eexists. split; [reflexivity|].
    tx_fields.
    rewrite delete_all_difference, insert_all_union.
    split_and!; try done.
    intros i bn bytes Hbn Hbytes'. split_and!.
    + apply list_elem_of_lookup_2 in Hbn. set_solver.
    + intros Hle. apply elem_of_push_all. left.
      apply elem_of_heights_where. eauto.
    + intros Hlt.
      assert (bn ∈ heights_where (λ bytes, ¬ (length bytes ≤ 1)) bns blockBytes)
        as Harr.
      { apply elem_of_heights_where. exists i, bytes. split_and!; [done..|lia]. }
      split.
      * apply elem_of_union. left. by apply elem_of_list_to_set.
      * unfold TxManager.GetDownloadDetails. cbn [TxManager.bdd].
        rewrite lookup_foldl_insert. by rewrite decide_True.
Qed.

Lemma HandleRequestResult_effect_witness :
  let g := newGetBlocksManager (mkChain (mkBlock 10 0)) 20 in
  let t := TxManager.newGetBlocksManager (mkChain (mkBlock 10 0)) 20 in
  (∃ g', HandleRequestResult [11%N; 12%N] [Some (mkBlock 11 7); None] "s1" g = Some g'
         ∧ retries g' = [12%N] ∧ resultC g' = true)
  ∧ (∃ t', TxManager.HandleRequestResult [11%N; 12%N]
             [[Byte.x01; Byte.x02]; []] [[]; []] 3 "s1" t = Some t'
           ∧ TxManager.retries t' = [12%N]).
Proof.
  intros g t.
  destruct (HandleRequestResult_effect [11%N; 12%N] [Some (mkBlock 11 7); None]
              [[Byte.x01; Byte.x02]; []] [[]; []] 3 "s1" g t)
    as [(g' & Hg' & _ & Hret & _ & _ & _ & _ & _ & HC)
        (t' & Ht' & _ & Hret' & _)].
  - simpl; lia.
  - simpl; lia.
  - split; [exists g'|exists t']; split_and!; assumption.
Defined.

(** C2 (as stated) fails on the manager that records download details: a
    block of more than one byte arrives for height 11, and after the call no
    signal is buffered and the result queue is still empty. *)
Lemma HandleRequestResult_claim_fails :
  let t := TxManager.newGetBlocksManager (mkChain (mkBlock 10 0)) 20 in
  ∃ t', TxManager.HandleRequestResult [11%N] [[Byte.x01; Byte.x02]] [[]] 3 "s1"
          (TxManager.with_requesting {[11%N]} t) = Some t'
        ∧ 11%N ∈ TxManager.processing t'
        ∧ ¬ HandleRequestResult_claimed_queueing [11%N]
              (TxManager.rq t') (TxManager.resultC t').
Proof.
  eexists. split; [reflexivity|]. split.
  - vm_compute. set_solver.
  - intros [HC _]. discriminate HC.
Qed.
End RequestResultClaims.

(** ** [GetNextBatch] *)

Section Batches.
Implicit Types (q : prioritizedNumbers) (requesting processing : gset N).

Lemma elem_of_heights_from lo len x :
  x ∈ heights_from lo len ↔ (lo <= x < lo + N.of_nat len)%N.
Proof.
  revert lo. induction len as [|len IH]; intros lo; simpl.
  - rewrite elem_of_nil. lia.
  - rewrite elem_of_cons, IH. lia.
Qed.

(** [getBatchFromRetries] pops a prefix of the queue, at most [n] long, and
    keeps the heights above the head; the prefix ends early only at the end
    of the queue or at a queued [0]. *)
Lemma retries_loop_prefix n h q acc :
  ∃ k, k ≤ n ∧ k ≤ length q
       ∧ retries_loop n h q acc
         = (acc ++ filter (λ bn, (h < bn)%N) (take k q), drop k q)
       ∧ (0%N ∉ q → k = n `min` length q).
Proof.
  revert q acc. induction n as [|n IH]; intros q acc.
  { exists 0. rewrite take_0, drop_0, app_nil_r. split_and!; [lia..|done|lia]. }
  destruct q as [|x q].
  { exists 0. simpl. rewrite app_nil_r. split_and!; [lia..|done|done]. }
  cbn [retries_loop pop]. destruct (x =? 0)%N eqn:Hx0.
  { apply N.eqb_eq in Hx0 as ->. exists 1. cbn [take drop length].
    rewrite take_0, drop_0, filter_cons_False, app_nil_r by lia.
    split_and!; [lia..|done|]. intros []. left. }
  apply N.eqb_neq in Hx0.
  destruct (x <=? h)%N eqn:Hxh.
  - apply N.leb_le in Hxh.
    destruct (IH q acc) as (k & Hkn & Hkq & -> & Hmin).
    exists (S k). cbn [take drop length].
    rewrite filter_cons_False by lia.
    split_and!; [lia..|done|]. intros Hq. rewrite Hmin; [lia|].
    intros ?. apply Hq. by right.
  - apply N.leb_gt in Hxh.
    destruct (IH q (acc ++ [x])) as (k & Hkn & Hkq & -> & Hmin).
    exists (S k). cbn [take drop length].
    rewrite filter_cons_True by lia.
    split_and!; [lia..|by rewrite <- app_assoc|].
    intros Hq. rewrite Hmin; [lia|].
    intros ?. apply Hq. by right.
Qed.

Section Unprocessed.
Variables (targetBN : N) (requesting processing : gset N).
Hypothesis target_below_max : (targetBN + 1 < uint64_mod)%N.

Local Abbreviation free := (free requesting processing).

Lemma free_test bn :
  bool_decide (bn ∉ requesting) && bool_decide (bn ∉ processing)
  = bool_decide (free bn).
Proof.
  unfold free. destruct (decide (bn ∉ requesting)), (decide (bn ∉ processing));
    repeat (rewrite ?bool_decide_eq_true_2, ?bool_decide_eq_false_2 by tauto);
    done.
Qed.

Lemma succ64_small bn : (bn <= targetBN)%N → succ64 bn = (bn + 1)%N.
Proof. intros Hle. unfold succ64. apply N.mod_small. lia. Qed.

(** With the [len] heights from [bn] to [targetBN] still to look at, the
    inner loop stops at the first free one, or leaves [bn] just above
    [targetBN]. *)
Lemma scan_free_first len fuel bn :
  (N.of_nat len + bn = targetBN + 1)%N → len ≤ fuel →
  scan_free fuel targetBN requesting processing bn =
  Some (match filter free (heights_from bn len) with
        | [] => (None, (targetBN + 1)%N)
        | x :: _ => (Some x, (x + 1)%N)
        end).
Proof.
  revert fuel bn. induction len as [|len IH]; intros fuel bn Hlen Hfuel.
  { destruct fuel; simpl; rewrite (proj2 (N.leb_gt _ _)) by lia;
      do 3 f_equal; lia. }
  destruct fuel as [|fuel]; [lia|].
  cbn [scan_free heights_from]. rewrite (proj2 (N.leb_le _ _)) by lia.
  rewrite free_test, filter_cons. rewrite succ64_small by lia.
  destruct (decide (free bn)) as [Hfree|Hnfree].
  - by rewrite bool_decide_eq_true_2.
  - rewrite bool_decide_eq_false_2 by done. apply IH; lia.
Qed.

(** What is left to look at after the first free height. *)
Lemma filter_free_rest len bn x rest :
  (N.of_nat len + bn = targetBN + 1)%N →
  filter free (heights_from bn len) = x :: rest →
  ∃ len', (N.of_nat len' + (x + 1) = targetBN + 1)%N ∧ len' ≤ len
          ∧ rest = filter free (heights_from (x + 1) len').
Proof.
  revert bn. induction len as [|len IH]; intros bn Hlen; [done|].
  cbn [heights_from]. rewrite filter_cons.
  destruct (decide (free bn)) as [Hfree|Hnfree].
  - intros [= <- <-]. exists len. split_and!; [lia|lia|done].
  - intros Hf. destruct (IH (bn + 1)%N) as (len' & ? & ? & ?); [lia|done|].
    exists len'. split_and!; [done|lia|done].
Qed.

Lemma unprocessed_loop_take fuel n len bn acc :
  (N.of_nat len + bn = targetBN + 1)%N → len ≤ fuel →
  unprocessed_loop fuel n targetBN requesting processing bn acc =
  Some (acc ++ take n (filter free (heights_from bn len))).
Proof.
  revert len bn acc. induction n as [|n IH]; intros len bn acc Hlen Hfuel.
  { by rewrite take_0, app_nil_r. }
  cbn [unprocessed_loop]. destruct (bn <=? targetBN)%N eqn:Hbn.
  - rewrite (scan_free_first len) by done.
    destruct (filter free (heights_from bn len)) as [|x rest] eqn:Hf.
    + rewrite (IH 0) by lia. cbn [option_list heights_from].
      by rewrite filter_nil, !take_nil, !app_nil_r.
    + destruct (filter_free_rest _ _ _ _ Hlen Hf) as (len' & Hlen' & Hle & ->).
      rewrite (IH len') by lia. cbn [option_list take].
      by rewrite <- app_assoc.
  - apply N.leb_gt in Hbn. assert (len = 0) as -> by lia.
    by rewrite app_nil_r.
Qed.
End Unprocessed.

(** Above [targetBN] there is nothing to scan, whatever the fuel. *)
Lemma unprocessed_loop_above fuel n targetBN requesting processing bn acc :
  (targetBN < bn)%N →
  unprocessed_loop fuel n targetBN requesting processing bn acc = Some acc.
Proof.
  intros Hbn. destruct n; [done|]. simpl.
  by rewrite (proj2 (N.leb_gt _ _)) by lia.
Qed.
End Batches.

Section GetNextBatchClaims.
Import QueueManager.

Lemma getBatchFromRetries_prefix cap g :
  ∃ k, k ≤ Z.to_nat cap ∧ k ≤ length (retries g)
       ∧ getBatchFromRetries cap g
         = (filter (λ bn, (curHeight g < bn)%N) (take k (retries g)),
            with_retries (drop k (retries g)) g)
       ∧ (0%N ∉ retries g → k = Z.to_nat cap `min` length (retries g)).
Proof.
  unfold getBatchFromRetries.
  destruct (retries_loop_prefix (Z.to_nat cap) (curHeight g) (retries g) [])
    as (k & Hk & Hq & -> & Hmin).
  exists k. split_and!; done.
Qed.

(** C3.  With a cap that is not negative, and the head and the target below
    the largest [uint64], [GetNextBatch] hands out at most
    [numBlocksByNumPerRequest] heights: first the heights above the head
    among a prefix popped from the ascending retry queue (at most as many
    pops as the cap; the popped heights at or below the head are dropped),
    then, only when the result queue is shorter than [softQueueCap], the
    lowest heights of [(head, targetBN]] that are neither in the batch so
    far, nor in [requesting], nor in [processing], as far as the cap allows;
    and every height handed out is in [requesting] on return.  The second
    step looks at the two maps only: a height that was requested before and
    still waits in [retries] is handed out by it like any other, and stays in
    [retries].  The scan is given fuel for the window. *)
Theorem GetNextBatch_assembly (numBlocksByNumPerRequest softQueueCap : Z)
    (fuel : nat) (g : getBlocksManager)
    (Hcap : (0 ≤ numBlocksByNumPerRequest)%Z)
    (Hhead : (curHeight g + 1 < uint64_mod)%N)
    (Htarget : (targetBN g + 1 < uint64_mod)%N)
    (Hfuel : N.to_nat (targetBN g - curHeight g) ≤ fuel) :
  ∃ k bns g',
    GetNextBatch numBlocksByNumPerRequest softQueueCap fuel g = Some (bns, g')
    ∧ (Z.of_nat (length bns) ≤ numBlocksByNumPerRequest)%Z
    ∧ let cap := Z.to_nat numBlocksByNumPerRequest in
      let fromRetries :=
        filter (λ bn, (curHeight g < bn)%N) (take k (retries g)) in
      let fresh :=
        filter (λ bn, (bn ∉ fromRetries) ∧ (bn ∉ requesting g) ∧ (bn ∉ processing g))
          (heights_from (curHeight g + 1) (N.to_nat (targetBN g - curHeight g))) in
      k ≤ cap
      ∧ (0%N ∉ retries g → k = cap `min` length (retries g))
      ∧ retries g' = drop k (retries g)
      ∧ (StronglySorted N.le (retries g) →
           ∀ x y, x ∈ take k (retries g) → y ∈ retries g' → (x ≤ y)%N)
      ∧ bns = fromRetries ++
               (if (rq_Len (rq g) <? softQueueCap)%Z
                then take (cap - length fromRetries) fresh else [])
      ∧ requesting g' = list_to_set bns ∪ requesting g
      ∧ (∀ bn, bn ∈ bns → bn ∈ requesting g')
      ∧ processing g' = processing g ∧ rq g' = rq g.
Proof.
  destruct (getBatchFromRetries_prefix numBlocksByNumPerRequest g)
    as (k & Hk & Hkq & HR & Hmin).
  set (R := filter (λ bn, (curHeight g < bn)%N) (take k (retries g))) in *.
  assert (HlenR : length R ≤ Z.to_nat numBlocksByNumPerRequest).
  { subst R. etrans; [apply length_filter|]. rewrite length_take. lia. }
  assert (Hsorted : StronglySorted N.le (retries g) →
            ∀ x y, x ∈ take k (retries g) → y ∈ drop k (retries g) → (x ≤ y)%N).
  { intros Hs x y Hx Hy. rewrite <- (take_drop k (retries g)) in Hs.
    by eapply StronglySorted_app_1_elem_of. }
  unfold GetNextBatch. rewrite HR.
  unfold availableForMoreTasks, getBatchFromUnprocessed, addBatchToRequesting,
    with_requesting, with_retries, curHeight.
  queue_fields.
  change (NumberU64 (CurrentBlock (chain g))) with (curHeight g).
  fold R.
  destruct (rq_Len (rq g) <? softQueueCap)%Z.
  -
    assert (succ64 (curHeight g) = (curHeight g + 1)%N) as ->.
    { unfold succ64. by apply N.mod_small. }
    replace (Z.to_nat (numBlocksByNumPerRequest - Z.of_nat (length R)))
      with (Z.to_nat numBlocksByNumPerRequest - length R) by lia.
    set (F := take (Z.to_nat numBlocksByNumPerRequest - length R)
                (filter (λ bn, (bn ∉ R) ∧ (bn ∉ requesting g) ∧ (bn ∉ processing g))
                   (heights_from (curHeight g + 1)
                      (N.to_nat (targetBN g - curHeight g))))).
    assert (HF : unprocessed_loop fuel (Z.to_nat numBlocksByNumPerRequest - length R)
                   (targetBN g) (insert_all R (requesting g)) (processing g)
                   (curHeight g + 1) [] = Some F).
    { destruct (decide (targetBN g < curHeight g + 1)%N) as [Hlt|Hge].
      - rewrite unprocessed_loop_above by done. subst F.
        replace (N.to_nat (targetBN g - curHeight g)) with 0 by lia.
        cbn [heights_from]. by rewrite filter_nil, take_nil.
      - rewrite (unprocessed_loop_take _ _ _ Htarget fuel _
                   (N.to_nat (targetBN g - curHeight g))) by lia.
        rewrite app_nil_l. subst F. do 2 f_equal.
        apply list_filter_iff. intros bn. unfold free.
        rewrite insert_all_union. set_solver. }
    rewrite HF. exists k. do 2 eexists. split; [reflexivity|].
    queue_fields. fold R F.
    rewrite !insert_all_union.
    split_and!; try done.
    + rewrite length_app. subst F. rewrite length_take. lia.
    + rewrite list_to_set_app_L. set_solver.
    + set_solver.
  - exists k. do 2 eexists. split; [reflexivity|].
    queue_fields. fold R.
    rewrite insert_all_union, app_nil_r.
    split_and!; try done; [lia|set_solver].
Qed.
End GetNextBatchClaims.

Section GetNextBatchExamples.
Import QueueManager.

Example GetNextBatch_sample :
  fst <$> GetNextBatch 4 100 10 sample_manager = Some [11%N; 14%N; 15%N; 16%N].
Proof. vm_compute. reflexivity. Qed.

Lemma GetNextBatch_assembly_witness :
  ∃ bns g', GetNextBatch 4 100 10 sample_manager = Some (bns, g')
            ∧ (Z.of_nat (length bns) ≤ 4)%Z
            ∧ ∀ bn, bn ∈ bns → bn ∈ requesting g'.
Proof.
  destruct (GetNextBatch_assembly 4 100 10 sample_manager)
    as (k & bns & g' & Hrun & Hlen & _ & _ & _ & _ & _ & _ & Hreq & _).
  - lia.
  - vm_compute. reflexivity.
  - vm_compute. reflexivity.
  - vm_compute. lia.
  - exists bns, g'. split_and!; assumption.
Defined.

(** C3, as the specification words it, fails.  At head 10 with the retry
    queue [5; 6; 11; 12] and a cap of 3, the three pops give 5, 6 and 11, of
    which only 11 is above the head; the scan from 11 on then takes 12 and
    13, which are in neither map.  The batch is [11; 12; 13] while 12 still
    waits in [retries]: 12 is not a never-requested height, and it is not one
    of the heights drained from [retries]. *)
Lemma GetNextBatch_claim_fails :
  ∃ g', GetNextBatch 3 100 10 stale_manager = Some ([11%N; 12%N; 13%N], g')
        ∧ retries g' = [12%N]
        ∧ ¬ GetNextBatch_claimed 3 100 stale_manager [11%N; 12%N; 13%N] g'.
Proof.
  eexists. split; [vm_compute; reflexivity|]. split; [reflexivity|].
  intros (_ & _ & k & fresh & Hleft & Hbns & _ & Hfresh).
  queue_fields_in Hleft. unfold stale_manager in Hbns, Hfresh.
  queue_fields_in Hbns. queue_fields_in Hfresh.
  assert (k = 3) as ->.
  { do 5 (destruct k as [|k]; [try discriminate Hleft; try done|]).
    discriminate Hleft. }
  assert (fresh = [12%N; 13%N]) as ->.
  { vm_compute in Hbns. by injection Hbns as <-. }
  destruct (Hfresh 12%N) as (_ & _ & _ & Hnot).
  - rewrite elem_of_cons. by left.
  - apply Hnot. rewrite !elem_of_cons. auto.
Qed.

(** C8.  With [softQueueCap = 0] the test [rq.results.Len() < softQueueCap]
    never holds, so [GetNextBatch] returns what [getBatchFromRetries]
    returns and nothing else: every height handed out was queued in
    [retries] (and is above the head), whatever [targetBN] and the two maps
    are. *)
Theorem GetNextBatch_softcap_zero (numBlocksByNumPerRequest : Z) (fuel : nat)
    (g : getBlocksManager) :
  ∃ k bns g',
    GetNextBatch numBlocksByNumPerRequest 0 fuel g = Some (bns, g')
    ∧ bns = (getBatchFromRetries numBlocksByNumPerRequest g).1
    ∧ bns = filter (λ bn, (curHeight g < bn)%N) (take k (retries g))
    ∧ retries g' = drop k (retries g)
    ∧ (∀ bn, bn ∈ bns → (bn ∈ retries g) ∧ (curHeight g < bn)%N)
    ∧ requesting g' = list_to_set bns ∪ requesting g
    ∧ processing g' = processing g ∧ rq g' = rq g.
Proof.
  destruct (getBatchFromRetries_prefix numBlocksByNumPerRequest g)
    as (k & Hk & Hkq & HR & Hmin).
  unfold GetNextBatch. rewrite HR.
  unfold availableForMoreTasks, addBatchToRequesting, with_requesting, with_retries.
  cbn [rq requesting chain targetBN processing retries resultC fst].
  assert ((rq_Len (rq g) <? 0)%Z = false) as ->.
  { apply Z.ltb_ge. unfold rq_Len. lia. }
  exists k. do 2 eexists. split; [reflexivity|].
  queue_fields. rewrite insert_all_union.
  split_and!; try done.
  intros bn [Hbn Hin]%list_elem_of_filter. split; [|done].
  by eapply subseteq_take.
Qed.
End GetNextBatchExamples.

(** ** [HandleInsertError] *)

Section InsertError.
Import QueueManager.

Lemma index_is_Some {A} (l : list A) n :
  is_Some (index l n) ↔ (0 ≤ n < Z.of_nat (length l))%Z.
Proof.
  unfold index. destruct (0 <=? n)%Z eqn:H0.
  - apply Z.leb_le in H0. rewrite lookup_lt_is_Some. lia.
  - apply Z.leb_gt in H0. split; [by intros [? ?]|lia].
Qed.

Lemma slice_to_is_Some {A} (l : list A) n :
  is_Some (slice_to l n) ↔ (0 ≤ n ≤ Z.of_nat (length l))%Z.
Proof.
  unfold slice_to.
  destruct (0 <=? n)%Z eqn:H0, (n <=? Z.of_nat (length l))%Z eqn:H1; simpl;
    rewrite ?Z.leb_le, ?Z.leb_gt in *;
    (split; [intros [? ?]; (done || lia)|(by eexists) || lia]).
Qed.

Lemma slice_from_is_Some {A} (l : list A) n :
  is_Some (slice_from l n) ↔ (0 ≤ n ≤ Z.of_nat (length l))%Z.
Proof.
  unfold slice_from.
  destruct (0 <=? n)%Z eqn:H0, (n <=? Z.of_nat (length l))%Z eqn:H1; simpl;
    rewrite ?Z.leb_le, ?Z.leb_gt in *;
    (split; [intros [? ?]; (done || lia)|(by eexists) || lia]).
Qed.

Lemma HandleInsertError_run results n g errResult :
  (0 ≤ n)%Z → results !! Z.to_nat n = Some errResult →
  HandleInsertError results n g =
  Some (HandleRequestError [] (stid errResult)
          (before_scrub results (Z.to_nat n) errResult g)).
Proof.
  intros Hn Herr. pose proof (lookup_lt_Some _ _ _ Herr) as Hlt.
  assert (slice_to results n = Some (take (Z.to_nat n) results)) as Hs1.
  { unfold slice_to. by rewrite !(proj2 (Z.leb_le _ _)) by lia. }
  assert (index results n = Some errResult) as Hs2.
  { unfold index. by rewrite (proj2 (Z.leb_le _ _)) by lia. }
  assert ((if bool_decide (n ≠ Z.of_nat (length results))
           then slice_from results (n + 1) else Some [])
          = Some (drop (S (Z.to_nat n)) results)) as Hs3.
  { rewrite bool_decide_eq_true_2 by lia. unfold slice_from.
    rewrite !(proj2 (Z.leb_le _ _)) by lia. cbn [andb].
    do 2 f_equal. lia. }
  unfold HandleInsertError. rewrite Hs1, Hs2, Hs3.
  cbn [mbind option_bind]. rewrite HandleRequestError_fields.
  unfold before_scrub, with_processing, with_rq, with_retries.
  queue_fields.
  unfold removeResultsByStreamID. rewrite demote_split.
  reflexivity.
Qed.

Lemma reenqueue_keeps abandoned q x : x ∈ q → x ∈ reenqueue abandoned q.
Proof.
  unfold reenqueue. revert q.
  induction abandoned as [|r abandoned IH]; intros q Hx; simpl; [done|].
  apply IH. by apply rq_push_keeps.
Qed.

Lemma reenqueue_height abandoned q r :
  r ∈ abandoned →
  ∃ x, x ∈ reenqueue abandoned q ∧ getBlockNumber x = getBlockNumber r.
Proof.
  unfold reenqueue. revert q.
  induction abandoned as [|a abandoned IH]; intros q Hr.
  { by apply elem_of_nil in Hr. }
  apply elem_of_cons in Hr as [<-|Hr]; [|by apply IH].
  cbn [foldl addBlockResults].
  destruct (rq_push_height (mkResult (block r) (stid r)) q) as (x & Hx & Hh & _).
  exists x. split; [|done]. by apply (reenqueue_keeps abandoned).
Qed.

Lemma elem_of_reenqueue abandoned q x :
  x ∈ reenqueue abandoned q → x ∈ q ∨ x ∈ abandoned.
Proof.
  unfold reenqueue. revert q.
  induction abandoned as [|a abandoned IH]; intros q Hx; simpl in *; [by left|].
  destruct (IH _ Hx) as [Hq|?]; [|right; by right].
  apply elem_of_rq_push in Hq as [Heq|?]; [|by left].
  right. rewrite Heq. destruct a. left.
Qed.
End InsertError.

Section InsertErrorClaims.
Import QueueManager.

(** C4 (as amended).  For [0 <= n < len(results)],
    [HandleInsertError(results, n)] removes the heights of [results[0..n)]
    from [processing]; removes the height of [results[n]] from [processing]
    and pushes it into [retries]; puts [results[n+1..]] back into the result
    queue; and then scrubs the stream of [results[n]] exactly as
    [HandleRequestError] scrubs a failed stream: every result queued under it,
    the ones just put back included, is removed from the result queue and from
    [processing] and pushed into [retries].  The results put back from other
    streams stay queued.  The stream pool is left as it is. *)
Theorem HandleInsertError_effect {error : Type} (results : list blockResult)
    (n : Z) (g : getBlocksManager) (p : streamPool error)
    (Hn : (0 ≤ n < Z.of_nat (length results))%Z) :
  ∃ errResult g',
    results !! Z.to_nat n = Some errResult
    ∧ HandleInsertError results n g = Some g'
    ∧ let inserted := take (Z.to_nat n) results in
      let abandoned := drop (S (Z.to_nat n)) results in
      let requeued := reenqueue abandoned (rq g) in
      let sid := stid errResult in
      let removed := (removeResultsByStreamID sid requeued).1 in
      (∀ r, r ∈ inserted → getBlockNumber r ∉ processing g')
      ∧ (getBlockNumber errResult ∉ processing g')
      ∧ getBlockNumber errResult ∈ retries g'
      ∧ (∀ r, r ∈ rq g ∨ r ∈ requeued → stid r = sid →
           (r ∉ rq g') ∧ (getBlockNumber r ∉ processing g')
           ∧ getBlockNumber r ∈ retries g')
      ∧ g' = HandleRequestError [] sid
               (before_scrub results (Z.to_nat n) errResult g)
      ∧ (∀ r, r ∈ abandoned →
           ∃ x, x ∈ requeued ∧ getBlockNumber x = getBlockNumber r)
      ∧ (∀ r, r ∈ requeued → stid r ≠ sid → r ∈ rq g')
      ∧ (∀ r, r ∈ abandoned → stid r = sid → r ∉ rq g')
      ∧ processing g' =
          processing g ∖ list_to_set (getBlockNumber <$> inserted)
            ∖ {[getBlockNumber errResult]} ∖ list_to_set removed
      ∧ retries g' ≡ₚ removed ++ getBlockNumber errResult :: retries g
      ∧ rq g' = filter (λ r, stid r ≠ sid) requeued
      ∧ requesting g' = requesting g
      ∧ on_manager_partial (HandleInsertError results n) (g, p) = Some (g', p).
Proof.
  destruct (lookup_lt_is_Some_2 results (Z.to_nat n)) as [errResult Herr]; [lia|].
  pose proof (HandleInsertError_run results n g errResult) as Hrun.
  exists errResult,
    (HandleRequestError [] (stid errResult)
       (before_scrub results (Z.to_nat n) errResult g)).
  split; [done|]. split; [apply Hrun; [lia|done]|].
  intros inserted abandoned requeued sid removed.
  assert (Hnode : on_manager_partial (HandleInsertError results n) (g, p)
                  = Some (HandleRequestError [] (stid errResult)
                            (before_scrub results (Z.to_nat n) errResult g), p)).
  { unfold on_manager_partial. cbn [fst snd]. by rewrite Hrun by (lia || done). }
  assert (Hg' : HandleRequestError [] (stid errResult)
                  (before_scrub results (Z.to_nat n) errResult g)
                = mkManager (chain g) (targetBN g) (requesting g)
                    (processing g ∖ list_to_set (getBlockNumber <$> inserted)
                       ∖ {[getBlockNumber errResult]} ∖ list_to_set removed)
                    (push_all removed (push (getBlockNumber errResult) (retries g)))
                    (removeResultsByStreamID sid requeued).2
                    (resultC g)).
  { rewrite HandleRequestError_fields. unfold before_scrub.
    queue_fields. rewrite !delete_all_difference, list_to_set_nil.
    by rewrite difference_empty_L. }
  rewrite Hnode. clear Hnode Hrun. rewrite !Hg'. queue_fields.
  assert (Hscrubbed : ∀ r, r ∈ requeued → stid r = sid →
            getBlockNumber r ∈ removed).
  { intros r Hr Hsid. apply removeResultsByStreamID_removed. eauto. }
  split_and!; try done.
  - intros r Hr. apply (list_elem_of_fmap_2 getBlockNumber) in Hr. set_solver.
  - set_solver.
  - apply elem_of_push_all. right. apply elem_of_push. by left.
  - intros r Hr Hsid.
    assert (r ∈ requeued) as Hq.
    { destruct Hr as [Hr|Hr]; [by apply reenqueue_keeps|done]. }
    split_and!.
    + rewrite removeResultsByStreamID_rest. tauto.
    + specialize (Hscrubbed r Hq Hsid). set_solver.
    + apply elem_of_push_all. left. auto.
  - intros r Hr. by apply reenqueue_height.
  - intros r Hr Hsid. by apply removeResultsByStreamID_rest.
  - intros r Hr Hsid. rewrite removeResultsByStreamID_rest. tauto.
  - by rewrite push_all_perm, push_perm.
Qed.

Lemma HandleInsertError_effect_witness :
  let results := [mkResult (mkBlock 11 0) "s1"; mkResult (mkBlock 12 0) "s2";
                  mkResult (mkBlock 13 0) "s1"; mkResult (mkBlock 14 0) "s3"] in
  let g := mkManager (mkChain (mkBlock 10 0)) 20 ∅ {[11%N; 12%N; 13%N; 14%N]}
             [] [] false in
  ∃ g', HandleInsertError results 1 g = Some g'
        ∧ rq g' = filter (λ r, stid r ≠ "s2")
                    (reenqueue (drop 2 results) (rq g)).
Proof.
  intros results g.
  destruct (HandleInsertError_effect results 1 g (mkProtocol (error:=unit) ∅ []))
    as (errResult & g' & Herr & Hrun & _ & _ & _ & _ & _ & _ & _ & _ & _ & _
        & Hrq & _).
  - simpl. lia.
  - exists g'. split; [exact Hrun|].
    injection Herr as <-. exact Hrq.
Defined.

(** C4 (as stated) fails.  Block 12 of stream s2 fails to insert, block 13
    came from s2 as well and block 14 from s3.  After the call block 13 is not
    in the result queue (its height is in [retries]), and the pool still holds
    s2. *)
Lemma HandleInsertError_claim_fails :
  let results := [mkResult (mkBlock 11 0) "s1"; mkResult (mkBlock 12 0) "s2";
                  mkResult (mkBlock 13 0) "s2"; mkResult (mkBlock 14 0) "s3"] in
  let g := mkManager (mkChain (mkBlock 10 0)) 20 ∅ {[11%N; 12%N; 13%N; 14%N]}
             [] [] false in
  let pool : streamPool unit := mkProtocol {["s1"; "s2"; "s3"]} [] in
  ∃ g', on_manager_partial (HandleInsertError results 1) (g, pool) = Some (g', pool)
        ∧ rq g' = [mkResult (mkBlock 14 0) "s3"]
        ∧ retries g' = [12%N; 13%N]
        ∧ ¬ HandleInsertError_claimed results 1 (rq g)
              (processing g') (retries g') (rq g') (streams pool)
        ∧ ∀ streams_after, ¬ HandleInsertError_claimed results 1 (rq g)
              (processing g') (retries g') (rq g') streams_after.
Proof.
  cbv zeta. eexists. split; [reflexivity|].
  split; [reflexivity|]. split; [reflexivity|].
  assert (Hq : mkResult (mkBlock 13 0) "s2"
               ∉ [mkResult (mkBlock 14 0) "s3"]).
  { intros [Heq|Hnil]%elem_of_cons; [discriminate Heq|by apply elem_of_nil in Hnil]. }
  split.
  - intros (e & [= <-] & _ & _ & _ & _ & Hpool & _). apply Hpool.
    cbn [streams stid]. set_solver.
  - intros streams_after (e & _ & _ & _ & _ & _ & _ & Hback). apply Hq.
    apply Hback. cbn [drop]. left.
Qed.

Example HandleInsertError_sample :
  let results := [mkResult (mkBlock 11 0) "s1"; mkResult (mkBlock 12 0) "s2";
                  mkResult (mkBlock 13 0) "s2"; mkResult (mkBlock 14 0) "s3"] in
  let g := mkManager (mkChain (mkBlock 10 0)) 20 ∅ {[11%N; 12%N; 13%N; 14%N]}
             [] [] false in
  (λ g', (retries g', rq g')) <$> HandleInsertError results 1 g
  = Some ([12%N; 13%N], [mkResult (mkBlock 14 0) "s3"]).
Proof. vm_compute. reflexivity. Qed.

(** C5.  [HandleInsertError] evaluates [results[:n]] and [results[n]]
    before it compares [n] with [len(results)], and [results[n+1:]] when they
    differ.  All of them are in bounds exactly when [0 <= n < len(results)],
    which is also exactly when the method returns; with
    [n = len(results)] the index [results[n]] is out of range and the call
    panics. *)
Theorem HandleInsertError_in_bounds (results : list blockResult) (n : Z)
    (g : getBlocksManager) :
  (is_Some (slice_to results n) ∧ is_Some (index results n)
   ∧ (n ≠ Z.of_nat (length results) → is_Some (slice_from results (n + 1)))
   ↔ (0 ≤ n < Z.of_nat (length results))%Z)
  ∧ (is_Some (HandleInsertError results n g)
     ↔ (0 ≤ n < Z.of_nat (length results))%Z)
  ∧ is_Some (slice_to results (Z.of_nat (length results)))
  ∧ index results (Z.of_nat (length results)) = None
  ∧ HandleInsertError results (Z.of_nat (length results)) g = None.
Proof.
  assert (Hidx : index results (Z.of_nat (length results)) = None).
  { apply eq_None_not_Some. rewrite index_is_Some. lia. }
  split_and!.
  - rewrite slice_to_is_Some, index_is_Some, slice_from_is_Some. lia.
  - split.
    + unfold HandleInsertError. intros [g' Hrun].
      destruct (slice_to results n) eqn:Hs; [|done].
      destruct (index results n) eqn:Hi; [|done].
      apply index_is_Some. by rewrite Hi.
    + intros Hn.
      destruct (lookup_lt_is_Some_2 results (Z.to_nat n)) as [e He]; [lia|].
      rewrite (HandleInsertError_run results n g e) by (done || lia). by eexists.
  - apply slice_to_is_Some. lia.
  - done.
  - unfold HandleInsertError. rewrite Hidx.
    by destruct (slice_to results (Z.of_nat (length results))).
Qed.
End InsertErrorClaims.

(** ** The short-range helper *)

Section ShortRangeClaims.
Import ShortRange.
Context {error : Type}.
Variables (errors_New : string → error) (ctx_Err noStream : error).
Variable errors_As_emptySigVerifyErr : error → bool.
Variable computeLongestHashChain : blockHashResults → list N * list StreamID.

Implicit Types (sh : @srHelper error) (res : blockHashResults)
  (served : list (hashesReply error)).

(** C6.  [blameAllStreams] returns [false] exactly when the error is an
    empty-signature-verification error (in the sense of [errors.As]) and
    [errIndex] is the index of the last block; in every other case it
    returns [true]. *)
Theorem blameAllStreams_spec (blocks : list Block) (errIndex : Z)
    (err : option error) :
  let tail_signature :=
    (∃ e, err = Some e ∧ errors_As_emptySigVerifyErr e = true)
    ∧ errIndex = (Z.of_nat (length blocks) - 1)%Z in
  (blameAllStreams errors_As_emptySigVerifyErr blocks errIndex err = false
   ↔ tail_signature)
  ∧ (blameAllStreams errors_As_emptySigVerifyErr blocks errIndex err = true
     ↔ ¬ tail_signature).
Proof.
  intros tail_signature.
  assert (Htest : tail_signature ↔
            from_option errors_As_emptySigVerifyErr false err
            && (errIndex =? Z.of_nat (length blocks) - 1)%Z = true).
  { subst tail_signature. rewrite andb_true_iff, Z.eqb_eq.
    destruct err as [e|]; cbn [from_option].
    - split; [intros [(e' & [= <-] & He) Hi]; done|intros [He Hi]; eauto].
    - split; [by intros [(e' & ? & _) _]|by intros [? _]]. }
  unfold blameAllStreams. rewrite Htest.
  destruct (from_option errors_As_emptySigVerifyErr false err
            && (errIndex =? Z.of_nat (length blocks) - 1)%Z);
    split; split; done.
Qed.

Lemma hash_workers_run n bns sh res :
  let served := take n (replies (syncProtocol sh)) in
  hash_workers errors_New noStream n bns sh res =
  (mkHelper
     (mkProtocol (streams (syncProtocol sh) ∖ list_to_set (evicted bns served))
        (drop n (replies (syncProtocol sh))))
     (config sh) (ctxDone sh),
   mkHashResults (window res) (results res ++ recorded bns served)).
Proof.
  cbv zeta. revert sh res. induction n as [|n IH]; intros sh res.
  { rewrite take_0, drop_0.
    change (evicted bns []) with (@nil StreamID).
    change (recorded bns []) with (@nil (list N * StreamID)).
    rewrite list_to_set_nil, app_nil_r, difference_empty_L.
    by destruct sh as [[] ? ?], res. }
  cbn [hash_workers]. unfold doGetBlockHashesRequest, GetBlockHashes.
  destruct sh as [[strs reps] cfg done]. cbn [syncProtocol replies streams].
  destruct reps as [|r reps].
  { rewrite IH. cbn [syncProtocol replies streams with_protocol config ctxDone].
    rewrite take_nil, drop_nil. reflexivity. }
  cbn [take drop].
  destruct r as [hashes sid|sid err].
  - destruct (decide (length hashes = length bns)) as [Hlen|Hlen].
    + rewrite bool_decide_eq_false_2 by (intros ?; done).
      rewrite IH. unfold with_protocol, addResult.
      helper_fields.
      assert (recorded bns (ReplyHashes hashes sid :: take n reps)
              = (hashes, sid) :: recorded bns (take n reps)) as ->.
      { unfold recorded. cbn [omap list_omap]. by rewrite decide_True. }
      assert (evicted bns (ReplyHashes hashes sid :: take n reps)
              = evicted bns (take n reps)) as ->.
      { unfold evicted. cbn [omap list_omap]. by rewrite decide_True. }
      by rewrite <- app_assoc.
    + rewrite bool_decide_eq_true_2 by done.
      rewrite IH. unfold with_protocol, RemoveStream.
      helper_fields.
      assert (recorded bns (ReplyHashes hashes sid :: take n reps)
              = recorded bns (take n reps)) as ->.
      { unfold recorded. cbn [omap list_omap]. by rewrite decide_False. }
      assert (evicted bns (ReplyHashes hashes sid :: take n reps)
              = sid :: evicted bns (take n reps)) as ->.
      { unfold evicted. cbn [omap list_omap]. by rewrite decide_False. }
      rewrite list_to_set_cons. do 3 f_equal. set_solver.
  - rewrite IH. unfold with_protocol.
    helper_fields.
    reflexivity.
Qed.

Lemma elem_of_recorded bns served hashes sid :
  (hashes, sid) ∈ recorded bns served ↔
  ReplyHashes hashes sid ∈ served ∧ length hashes = length bns.
Proof.
  unfold recorded. rewrite list_elem_of_omap. split.
  - intros (r & Hr & Hsome). destruct r as [h s|]; [|done].
    destruct (decide (length h = length bns)); [|done]. by simplify_eq.
  - intros [Hr Hlen]. exists (ReplyHashes hashes sid). split; [done|].
    by rewrite decide_True.
Qed.

Lemma elem_of_evicted bns served sid :
  sid ∈ evicted bns served ↔
  ∃ hashes, ReplyHashes hashes sid ∈ served ∧ length hashes ≠ length bns.
Proof.
  unfold evicted. rewrite list_elem_of_omap. split.
  - intros (r & Hr & Hsome). destruct r as [h s|]; [|done].
    destruct (decide (length h = length bns)); [done|]. simplify_eq. eauto.
  - intros (hashes & Hr & Hlen). exists (ReplyHashes hashes sid). split; [done|].
    by rewrite decide_False.
Qed.

(** C9.  Of the answers served to the [Concurrency] workers of
    [getHashChain], one whose length differs from [len(bns)] has its stream
    removed from the pool and is not recorded; one of the right length is
    recorded.  The recorded answers are exactly the ones of the right length,
    and they are what [computeLongestHashChain] is run on. *)
Theorem getHashChain_validates_length (bns : list N) sh :
  let n := Z.to_nat (Concurrency (config sh)) in
  let served := take n (replies (syncProtocol sh)) in
  let run := hash_workers errors_New noStream n bns sh (newBlockHashResults bns) in
  (∀ hashes sid, ReplyHashes hashes sid ∈ served →
     (length hashes ≠ length bns →
        (sid ∉ streams (syncProtocol run.1)) ∧ ((hashes, sid) ∉ results run.2))
     ∧ (length hashes = length bns → (hashes, sid) ∈ results run.2))
  ∧ results run.2 = recorded bns served
  ∧ streams (syncProtocol run.1)
    = streams (syncProtocol sh) ∖ list_to_set (evicted bns served)
  ∧ match getHashChain errors_New ctx_Err noStream computeLongestHashChain bns sh with
    | None => (Concurrency (config sh) < 0)%Z
    | Some (out, sh') =>
        sh' = run.1
        ∧ out = if ctxDone sh then ([], [], Some ctx_Err)
                else ((computeLongestHashChain (mkHashResults bns (recorded bns served))).1,
                      (computeLongestHashChain (mkHashResults bns (recorded bns served))).2,
                      None)
    end.
Proof.
  intros n served run.
  assert (Hrun : run = (mkHelper
            (mkProtocol (streams (syncProtocol sh) ∖ list_to_set (evicted bns served))
               (drop n (replies (syncProtocol sh))))
            (config sh) (ctxDone sh),
          mkHashResults bns (recorded bns served))).
  { subst run. by rewrite hash_workers_run. }
  split_and!.
  - intros hashes sid Hserved. rewrite Hrun.
    cbn [fst snd syncProtocol streams results]. split.
    + intros Hlen. split.
      * assert (sid ∈ evicted bns served) by (apply elem_of_evicted; eauto).
        set_solver.
      * rewrite elem_of_recorded. tauto.
    + intros Hlen. by apply elem_of_recorded.
  - by rewrite Hrun.
  - by rewrite Hrun.
  - unfold getHashChain. destruct (Concurrency (config sh) <? 0)%Z eqn:Hc.
    { by apply Z.ltb_lt. }
    fold n. fold run. rewrite Hrun. cbn [fst ctxDone].
    destruct (ctxDone sh); [done|].
    by destruct (computeLongestHashChain _).
Qed.

(** C10.  [checkPrerequisites] returns an error exactly when the pool
    reports fewer streams than [Concurrency]; the caller then returns
    that error at once, and the rest of the cycle is not run: the helper and
    its pool are as they were. *)
Theorem checkPrerequisites_gate {A} (cycle : srHelper → (error + A) * srHelper) sh :
  let short := (NumStreams (syncProtocol sh) < Concurrency (config sh))%Z in
  (checkPrerequisites errors_New sh ≠ None ↔ short)
  ∧ (checkPrerequisites errors_New sh = None ↔ ¬ short)
  ∧ (short → runCycle errors_New cycle sh
             = (inl (errors_New "not enough streams"), sh))
  ∧ (¬ short → runCycle errors_New cycle sh = cycle sh).
Proof.
  unfold runCycle, checkPrerequisites.
  destruct (NumStreams (syncProtocol sh) <? Concurrency (config sh))%Z eqn:Hlt.
  - apply Z.ltb_lt in Hlt. split_and!; done.
  - apply Z.ltb_ge in Hlt. split_and!; try done; try lia; split; (done || lia).
Qed.
End ShortRangeClaims.

(** ** The retry queue stays ascending *)

Section RetriesAscending.
Import QueueManager.

Lemma StronglySorted_drop k (q : list N) :
  StronglySorted N.le q → StronglySorted N.le (drop k q).
Proof.
  intros Hq. rewrite <- (take_drop k q) in Hq.
  by apply StronglySorted_app_1_r in Hq.
Qed.

Lemma newGetBlocksManager_ascending c target :
  StronglySorted N.le (retries (newGetBlocksManager c target)).
Proof. constructor. Qed.

Lemma HandleRequestError_ascending bns sid g :
  StronglySorted N.le (retries g) →
  StronglySorted N.le (retries (HandleRequestError bns sid g)).
Proof.
  intros Hq. rewrite HandleRequestError_fields. queue_fields.
  by do 2 apply push_all_sorted.
Qed.

Lemma HandleRequestResult_ascending bns blocks sid g g' :
  StronglySorted N.le (retries g) →
  HandleRequestResult bns blocks sid g = Some g' →
  StronglySorted N.le (retries g').
Proof.
  intros Hq. unfold HandleRequestResult.
  destruct (decide (length bns ≤ length (drop 0 blocks))) as [Hle|Hgt].
  - rewrite result_loop_some by done. intros [= <-]. queue_fields.
    by apply push_all_sorted.
  - rewrite result_loop_panics by lia. done.
Qed.

Lemma HandleInsertError_ascending results n g g' :
  StronglySorted N.le (retries g) →
  HandleInsertError results n g = Some g' →
  StronglySorted N.le (retries g').
Proof.
  intros Hq Hrun.
  destruct (index results n) as [e|] eqn:He.
  - assert (0 ≤ n)%Z as Hn by (apply (index_is_Some results n); eauto).
    unfold index in He. rewrite (proj2 (Z.leb_le _ _)) in He by done.
    rewrite (HandleInsertError_run results n g e) in Hrun by done.
    injection Hrun as <-. apply HandleRequestError_ascending.
    unfold before_scrub. queue_fields. by apply push_sorted.
  - unfold HandleInsertError in Hrun. rewrite He in Hrun.
    by destruct (slice_to results n).
Qed.

Lemma GetNextBatch_ascending cap soft fuel g bns g' :
  StronglySorted N.le (retries g) →
  GetNextBatch cap soft fuel g = Some (bns, g') →
  StronglySorted N.le (retries g').
Proof.
  intros Hq. unfold GetNextBatch.
  destruct (getBatchFromRetries_prefix cap g) as (k & _ & _ & -> & _).
  unfold availableForMoreTasks, addBatchToRequesting, with_requesting, with_retries.
  queue_fields.
  destruct (rq_Len (rq g) <? soft)%Z.
  - destruct (getBatchFromUnprocessed _ _ _); [|done].
    intros [= <- <-]. queue_fields. by apply StronglySorted_drop.
  - intros [= <- <-]. queue_fields. by apply StronglySorted_drop.
Qed.
End RetriesAscending.

(** * Further properties of the managers *)

Section BatchRuns.
Import QueueManager.

(** What one [GetNextBatch] returns and leaves, with [k] the number of
    heights popped from the retry queue. *)
Lemma GetNextBatch_run cap soft fuel g :
  (curHeight g + 1 < uint64_mod)%N →
  (targetBN g + 1 < uint64_mod)%N →
  N.to_nat (targetBN g - curHeight g) ≤ fuel →
  ∃ k, k ≤ Z.to_nat cap ∧ k ≤ length (retries g)
       ∧ (0%N ∉ retries g → k = Z.to_nat cap `min` length (retries g))
       ∧ let R := filter (λ bn, (curHeight g < bn)%N) (take k (retries g)) in
         let F := if (rq_Len (rq g) <? soft)%Z
                  then take (Z.to_nat cap - length R)
                         (filter (free (list_to_set R ∪ requesting g) (processing g))
                            (heights_from (curHeight g + 1)
                               (N.to_nat (targetBN g - curHeight g))))
                  else [] in
         GetNextBatch cap soft fuel g =
         Some (R ++ F,
               mkManager (chain g) (targetBN g)
                 (list_to_set (R ++ F) ∪ requesting g) (processing g)
                 (drop k (retries g)) (rq g) (resultC g)).
Proof.
  intros Hhead Htarget Hfuel.
  destruct (getBatchFromRetries_prefix cap g) as (k & Hk & Hkq & HR & Hmin).
  exists k. split_and!; [done..|]. intros R F.
  unfold GetNextBatch. rewrite HR. fold R.
  unfold availableForMoreTasks, getBatchFromUnprocessed, addBatchToRequesting,
    with_requesting, with_retries, curHeight.
  queue_fields.
  change (NumberU64 (CurrentBlock (chain g))) with (curHeight g).
  subst F. destruct (rq_Len (rq g) <? soft)%Z.
  - assert (succ64 (curHeight g) = (curHeight g + 1)%N) as ->.
    { unfold succ64. by apply N.mod_small. }
    replace (Z.to_nat (cap - Z.of_nat (length R)))
      with (Z.to_nat cap - length R) by lia.
    rewrite insert_all_union.
    destruct (decide (targetBN g < curHeight g + 1)%N) as [Hlt|Hge].
    + rewrite unprocessed_loop_above by done.
      replace (N.to_nat (targetBN g - curHeight g)) with 0 by lia.
      cbn [heights_from]. rewrite filter_nil, take_nil, app_nil_r.
      do 3 f_equal; rewrite ?insert_all_union; set_solver.
    + rewrite (unprocessed_loop_take _ _ _ Htarget fuel _
                 (N.to_nat (targetBN g - curHeight g))) by lia.
      rewrite app_nil_l.
      do 3 f_equal; rewrite ?insert_all_union, ?list_to_set_app_L; set_solver.
  - rewrite app_nil_r. do 3 f_equal; by rewrite ?insert_all_union.
Qed.

Lemma heights_from_sorted lo len : StronglySorted N.lt (heights_from lo len).
Proof.
  revert lo. induction len as [|len IH]; intros lo; simpl; constructor; [done|].
  apply Forall_forall. intros x Hx. apply elem_of_heights_from in Hx. lia.
Qed.

Lemma StronglySorted_filter {A} (R : relation A) (P : A → Prop)
    `{∀ x, Decision (P x)} (l : list A) :
  StronglySorted R l → StronglySorted R (filter P l).
Proof.
  induction 1 as [|x l Hl IH Hx]; [constructor|].
  rewrite filter_cons. destruct (decide (P x)); [|done].
  constructor; [done|]. apply Forall_forall. intros y [_ Hy]%list_elem_of_filter.
  by eapply Forall_forall in Hx.
Qed.

Lemma StronglySorted_take {A} (R : relation A) n (l : list A) :
  StronglySorted R l → StronglySorted R (take n l).
Proof.
  intros Hl. rewrite <- (take_drop n l) in Hl.
  by apply StronglySorted_app_1_l in Hl.
Qed.

Lemma StronglySorted_lt_NoDup (l : list N) : StronglySorted N.lt l → NoDup l.
Proof.
  induction 1 as [|x l Hl IH Hx]; constructor; [|done].
  intros Hin. eapply Forall_forall in Hx; [|done]. lia.
Qed.

(** The fresh heights of a batch: strictly ascending, inside the window, and
    in neither map. *)
Lemma fresh_heights n requesting processing lo len :
  let F := take n (filter (free requesting processing) (heights_from lo len)) in
  StronglySorted N.lt F
  ∧ ∀ x, x ∈ F → (lo <= x < lo + N.of_nat len)%N
                 ∧ (x ∉ requesting) ∧ (x ∉ processing).
Proof.
  intros F. split.
  - apply StronglySorted_take, StronglySorted_filter, heights_from_sorted.
  - intros x Hx. apply subseteq_take in Hx.
    apply list_elem_of_filter in Hx as [[? ?] Hx].
    apply elem_of_heights_from in Hx. done.
Qed.
End BatchRuns.

Section BatchProperties.
Import QueueManager.

Lemma NoDup_take_drop {A} k (l : list A) :
  NoDup l → NoDup (take k l) ∧ NoDup (drop k l)
            ∧ ∀ x, x ∈ take k l → x ∉ drop k l.
Proof.
  intros Hl. rewrite <- (take_drop k l) in Hl.
  apply NoDup_app in Hl as (? & ? & ?). done.
Qed.

(** The least element of a strictly ascending list is its head. *)
Lemma sorted_head_least (x y : N) (l : list N) :
  StronglySorted N.lt (y :: l) → x ∈ y :: l → (y <= x)%N.
Proof.
  intros Hl [->|Hx]%elem_of_cons; [lia|].
  apply StronglySorted_cons in Hl as [Hy _].
  eapply Forall_forall in Hy; [|done]. lia.
Qed.

(** X1.  With nothing to retry and the head at or beyond the target, or with
    a cap that is not positive, [GetNextBatch] hands out nothing and leaves the
    manager exactly as it was, whatever the fuel. *)
Theorem GetNextBatch_idle (cap soft : Z) (fuel : nat) (g : getBlocksManager)
    (Hidle : (cap ≤ 0)%Z
             ∨ (retries g = [] ∧ (targetBN g <= curHeight g)%N
                ∧ (curHeight g + 1 < uint64_mod)%N)) :
  GetNextBatch cap soft fuel g = Some ([], g).
Proof.
  unfold GetNextBatch, getBatchFromRetries, getBatchFromUnprocessed,
    availableForMoreTasks, addBatchToRequesting, with_requesting, with_retries.
  destruct Hidle as [Hcap|(Hret & Htarget & Hhead)].
  - replace (Z.to_nat cap) with 0 by lia. cbn [retries_loop length].
    queue_fields. replace (Z.to_nat (cap - Z.of_nat 0)) with 0 by lia.
    cbn [unprocessed_loop insert_all foldl app].
    destruct g. by destruct (rq_Len _ <? soft)%Z.
  - rewrite Hret.
    assert (retries_loop (Z.to_nat cap) (curHeight g) [] [] = ([], [])) as ->.
    { by destruct (Z.to_nat cap). }
    queue_fields. cbn [length insert_all foldl app].
    assert (succ64 (curHeight g) = (curHeight g + 1)%N) as Hs.
    { unfold succ64. by apply N.mod_small. }
    unfold curHeight in *. queue_fields. rewrite Hs.
    rewrite unprocessed_loop_above by lia.
    destruct g as [c t rq pr rt q rc]. cbn in Hret. subst rt.
    by destruct (rq_Len _ <? soft)%Z.
Qed.

Lemma GetNextBatch_idle_witness :
  GetNextBatch 10 100 0 (newGetBlocksManager (mkChain (mkBlock 20 0)) 20)
  = Some ([], newGetBlocksManager (mkChain (mkBlock 20 0)) 20).
Proof.
  apply GetNextBatch_idle. right. split_and!; [reflexivity|..].
  - vm_compute. discriminate.
  - vm_compute. reflexivity.
Defined.

(** X2.  With nothing to retry, room in the result queue and a positive cap,
    [GetNextBatch] hands out a non-empty batch as soon as one height of
    [(head, targetBN]] is in neither map, and the first height handed out is
    the lowest such height. *)
Theorem GetNextBatch_progress (cap soft : Z) (fuel : nat) (g : getBlocksManager)
    (x : N)
    (Hretries : retries g = [])
    (Hroom : (rq_Len (rq g) < soft)%Z)
    (Hcap : (1 ≤ cap)%Z)
    (Hhead : (curHeight g + 1 < uint64_mod)%N)
    (Htarget : (targetBN g + 1 < uint64_mod)%N)
    (Hfuel : N.to_nat (targetBN g - curHeight g) ≤ fuel)
    (Hwindow : (curHeight g < x <= targetBN g)%N)
    (Hfree : free (requesting g) (processing g) x) :
  ∃ bn bns g',
    GetNextBatch cap soft fuel g = Some (bn :: bns, g')
    ∧ (curHeight g < bn <= x)%N
    ∧ free (requesting g) (processing g) bn
    ∧ bn ∈ requesting g'.
Proof.
  destruct (GetNextBatch_run cap soft fuel g Hhead Htarget Hfuel)
    as (k & _ & Hk & _ & Hrun).
  rewrite Hretries in Hk. cbn [length] in Hk. assert (k = 0) as -> by lia.
  cbv zeta in Hrun. rewrite Hretries, take_0, filter_nil in Hrun.
  rewrite (proj2 (Z.ltb_lt _ _) Hroom) in Hrun.
  cbn [length app] in Hrun. rewrite list_to_set_nil, union_empty_l_L in Hrun.
  set (L := filter (free (requesting g) (processing g))
              (heights_from (curHeight g + 1)
                 (N.to_nat (targetBN g - curHeight g)))) in *.
  assert (HxL : x ∈ L).
  { apply list_elem_of_filter. split; [done|]. apply elem_of_heights_from. lia. }
  assert (HL : StronglySorted N.lt L).
  { apply StronglySorted_filter, heights_from_sorted. }
  destruct L as [|y L'] eqn:HeqL; [by apply elem_of_nil in HxL|].
  replace (Z.to_nat cap - 0) with (S (Z.to_nat cap - 1)) in Hrun by lia.
  cbn [take] in Hrun.
  assert (Hy : y ∈ filter (free (requesting g) (processing g))
                 (heights_from (curHeight g + 1)
                    (N.to_nat (targetBN g - curHeight g)))).
  { fold L. rewrite HeqL. left. }
  apply list_elem_of_filter in Hy as [Hyfree Hy].
  apply elem_of_heights_from in Hy.
  eexists y, _, _. split; [exact Hrun|]. queue_fields.
  split_and!; [lia|by eapply sorted_head_least|done|set_solver].
Qed.

Lemma GetNextBatch_progress_witness :
  ∃ bn bns g', GetNextBatch 4 100 10 (with_retries [] sample_manager)
               = Some (bn :: bns, g') ∧ (10 < bn <= 14)%N.
Proof.
  destruct (GetNextBatch_progress 4 100 10 (with_retries [] sample_manager) 14)
    as (bn & bns & g' & Hrun & Hbn & _).
  - reflexivity.
  - vm_compute. reflexivity.
  - lia.
  - vm_compute. reflexivity.
  - vm_compute. reflexivity.
  - vm_compute. lia.
  - vm_compute. split; [reflexivity|discriminate].
  - split; vm_compute; set_solver.
  - exists bn, bns, g'. split; [exact Hrun|exact Hbn].
Defined.

(** X3.  A batch never holds the same height twice, as long as the retry
    queue holds none twice. *)
Theorem GetNextBatch_no_duplicates (cap soft : Z) (fuel : nat)
    (g : getBlocksManager)
    (Hretries : NoDup (retries g))
    (Hhead : (curHeight g + 1 < uint64_mod)%N)
    (Htarget : (targetBN g + 1 < uint64_mod)%N)
    (Hfuel : N.to_nat (targetBN g - curHeight g) ≤ fuel) :
  ∃ bns g', GetNextBatch cap soft fuel g = Some (bns, g') ∧ NoDup bns.
Proof.
  destruct (GetNextBatch_run cap soft fuel g Hhead Htarget Hfuel)
    as (k & _ & _ & _ & Hrun).
  cbv zeta in Hrun. do 2 eexists. split; [exact Hrun|].
  apply NoDup_app. split_and!.
  - apply NoDup_filter. by apply (NoDup_take_drop k).
  - intros y Hy HF. destruct (rq_Len (rq g) <? soft)%Z;
      [|by apply elem_of_nil in HF].
    apply fresh_heights in HF as (_ & Hreq & _). set_solver.
  - destruct (rq_Len (rq g) <? soft)%Z; [|constructor].
    apply StronglySorted_lt_NoDup, fresh_heights.
Qed.

Lemma GetNextBatch_no_duplicates_witness :
  ∃ bns g', GetNextBatch 4 100 10 sample_manager = Some (bns, g') ∧ NoDup bns.
Proof.
  apply GetNextBatch_no_duplicates.
  - vm_compute. repeat constructor; set_solver.
  - vm_compute. reflexivity.
  - vm_compute. reflexivity.
  - vm_compute. lia.
Defined.
End BatchProperties.

Section BatchSequences.
Import QueueManager.

(** X4.  With nothing to retry, and the head and the target both below the
    largest [uint64] (so that neither [head + 1] nor the [bn++] of the scan
    wraps), two calls of [GetNextBatch] in a row hand out different heights:
    every height of the second batch lies above every height of the first,
    and [requesting] gains exactly the heights of the two batches. *)
Theorem GetNextBatch_twice (cap soft : Z) (fuel : nat) (g : getBlocksManager)
    (Hretries : retries g = [])
    (Hhead : (curHeight g + 1 < uint64_mod)%N)
    (Htarget : (targetBN g + 1 < uint64_mod)%N)
    (Hfuel : N.to_nat (targetBN g - curHeight g) ≤ fuel) :
  ∃ bns1 g1 bns2 g2,
    GetNextBatch cap soft fuel g = Some (bns1, g1)
    ∧ GetNextBatch cap soft fuel g1 = Some (bns2, g2)
    ∧ (∀ x y, x ∈ bns1 → y ∈ bns2 → (x < y)%N)
    ∧ requesting g2 = list_to_set (bns1 ++ bns2) ∪ requesting g.
Proof.
  destruct (GetNextBatch_run cap soft fuel g Hhead Htarget Hfuel)
    as (k & _ & Hk & _ & Hrun).
  rewrite Hretries in Hk. cbn [length] in Hk. assert (k = 0) as -> by lia.
  cbv zeta in Hrun. rewrite Hretries, take_0, drop_0, filter_nil in Hrun.
  cbn [length app] in Hrun. rewrite list_to_set_nil, union_empty_l_L in Hrun.
  set (W := heights_from (curHeight g + 1)
              (N.to_nat (targetBN g - curHeight g))) in *.
  set (L := filter (free (requesting g) (processing g)) W) in *.
  set (F1 := if (rq_Len (rq g) <? soft)%Z
             then take (Z.to_nat cap - 0) L else []) in *.
  set (g1 := mkManager (chain g) (targetBN g) (list_to_set F1 ∪ requesting g)
               (processing g) [] (rq g) (resultC g)) in *.
  destruct (GetNextBatch_run cap soft fuel g1) as (k' & _ & Hk' & _ & Hrun');
    [done..|].
  cbn [retries g1 length] in Hk'. assert (k' = 0) as -> by lia.
  cbv zeta in Hrun'. subst g1. unfold curHeight in Hrun'.
  queue_fields_in Hrun'.
  change (NumberU64 (CurrentBlock (chain g))) with (curHeight g) in Hrun'.
  rewrite take_0, drop_0, filter_nil in Hrun'.
  cbn [length app] in Hrun'. rewrite list_to_set_nil, union_empty_l_L in Hrun'.
  fold W in Hrun'.
  eexists _, _, _, _. split; [exact Hrun|]. split; [exact Hrun'|].
  queue_fields. split.
  - intros x y Hx Hy. subst F1.
    destruct (rq_Len (rq g) <? soft)%Z; [|by apply elem_of_nil in Hx].
    apply subseteq_take in Hy.
    apply list_elem_of_filter in Hy as [[Hreq Hproc] HyW].
    assert (y ∈ L) as HyL.
    { apply list_elem_of_filter. split; [|done]. split; [set_solver|done]. }
    assert (y ∉ take (Z.to_nat cap - 0) L) as Hnot by set_solver.
    rewrite <- (take_drop (Z.to_nat cap - 0) L) in HyL.
    apply elem_of_app in HyL as [HyL|HyL]; [done|].
    assert (StronglySorted N.lt L) as HL.
    { apply StronglySorted_filter, heights_from_sorted. }
    rewrite <- (take_drop (Z.to_nat cap - 0) L) in HL.
    by eapply (StronglySorted_app_1_elem_of _ _ _ x y HL).
  - rewrite list_to_set_app_L. set_solver.
Qed.
End BatchSequences.

Section BatchInvariant.
Import QueueManager.

Lemma GetNextBatch_twice_witness :
  ∃ bns1 g1 bns2 g2,
    GetNextBatch 4 100 10 (with_retries [] sample_manager) = Some (bns1, g1)
    ∧ GetNextBatch 4 100 10 g1 = Some (bns2, g2)
    ∧ ∀ x y, x ∈ bns1 → y ∈ bns2 → (x < y)%N.
Proof.
  destruct (GetNextBatch_twice 4 100 10 (with_retries [] sample_manager))
    as (bns1 & g1 & bns2 & g2 & H1 & H2 & Hlt & _).
  - reflexivity.
  - vm_compute. reflexivity.
  - vm_compute. reflexivity.
  - vm_compute. lia.
  - exists bns1, g1, bns2, g2. split_and!; assumption.
Defined.

Lemma filter_all {A} (P : A → Prop) `{∀ x, Decision (P x)} (l : list A) :
  (∀ x, x ∈ l → P x) → filter P l = l.
Proof.
  induction l as [|x l IH]; intros Hl; [done|].
  rewrite filter_cons_True by (apply Hl; left).
  f_equal. apply IH. intros y Hy. apply Hl. by right.
Qed.

(** X5.  When no height waiting in the retry queue is stale (at or below the
    head), [GetNextBatch] keeps the three tracking sets apart: afterwards no
    height is both in [requesting] and in [processing], and no height still
    in [retries] is in either map or queued twice. *)
Theorem GetNextBatch_keeps_apart (cap soft : Z) (fuel : nat)
    (g : getBlocksManager)
    (Hinv : tracking_disjoint (requesting g) (processing g) (retries g))
    (Hfresh : ∀ bn, bn ∈ retries g → (curHeight g < bn)%N)
    (Hhead : (curHeight g + 1 < uint64_mod)%N)
    (Htarget : (targetBN g + 1 < uint64_mod)%N)
    (Hfuel : N.to_nat (targetBN g - curHeight g) ≤ fuel) :
  ∃ bns g',
    GetNextBatch cap soft fuel g = Some (bns, g')
    ∧ tracking_disjoint (requesting g') (processing g') (retries g').
Proof.
  destruct Hinv as (Hrp & Hnodup & Hret).
  destruct (GetNextBatch_run cap soft fuel g Hhead Htarget Hfuel)
    as (k & Hkcap & Hk & Hmin & Hrun).
  cbv zeta in Hrun. do 2 eexists. split; [exact Hrun|]. queue_fields.
  assert (H0 : 0%N ∉ retries g).
  { intros H0. apply Hfresh in H0. lia. }
  specialize (Hmin H0).
  rewrite (filter_all _ (take k (retries g))) in *
    by (intros y Hy%subseteq_take; by apply Hfresh).
  set (R := take k (retries g)) in *.
  set (F := if (rq_Len (rq g) <? soft)%Z
            then take (Z.to_nat cap - length R)
                   (filter (free (list_to_set R ∪ requesting g) (processing g))
                      (heights_from (curHeight g + 1)
                         (N.to_nat (targetBN g - curHeight g))))
            else []) in *.
  assert (HF : ∀ y, y ∈ F → (y ∉ processing g) ∧ F ≠ []).
  { intros y Hy. split; [|by intros E; rewrite E in Hy; apply elem_of_nil in Hy].
    subst F. destruct (rq_Len (rq g) <? soft)%Z; [|by apply elem_of_nil in Hy].
    by apply fresh_heights in Hy as (_ & _ & ?). }
  assert (HFnil : F ≠ [] → drop k (retries g) = []).
  { intros HFne. apply drop_ge.
    destruct (decide (k = length (retries g))) as [->|Hne]; [done|].
    exfalso. apply HFne. subst F.
    destruct (rq_Len (rq g) <? soft)%Z; [|done].
    assert (length R = Z.to_nat cap) as ->.
    { subst R. rewrite length_take. lia. }
    by rewrite Nat.sub_diag, take_0. }
  destruct (NoDup_take_drop k (retries g) Hnodup) as (_ & Hdrop & Hsplit).
  fold R in Hsplit.
  split_and!.
  - intros y Hy Hp. apply elem_of_union in Hy as [Hy|Hy]; [|set_solver].
    apply elem_of_list_to_set, elem_of_app in Hy as [Hy|Hy].
    + apply subseteq_take in Hy. by apply Hret in Hy as [_ ?].
    + by apply HF in Hy as [? _].
  - done.
  - intros y Hy. pose proof (subseteq_drop _ _ _ Hy) as Hy'.
    apply Hret in Hy' as [Hyreq Hyproc]. split; [|done].
    intros Hin. apply elem_of_union in Hin as [Hin|Hin]; [|done].
    apply elem_of_list_to_set, elem_of_app in Hin as [Hin|Hin].
    + by apply (Hsplit y).
    + apply HF in Hin as [_ HFne]. rewrite (HFnil HFne) in Hy.
      by apply elem_of_nil in Hy.
Qed.

Lemma GetNextBatch_keeps_apart_witness :
  let g := mkManager (mkChain (mkBlock 10 0)) 20 {[12%N]} {[13%N]}
             [11%N; 15%N] [] false in
  ∃ bns g', GetNextBatch 4 100 10 g = Some (bns, g')
            ∧ tracking_disjoint (requesting g') (processing g') (retries g').
Proof.
  intros g. apply GetNextBatch_keeps_apart; subst g; unfold curHeight;
    queue_fields.
  - split_and!.
    + set_solver.
    + repeat constructor; set_solver.
    + intros bn Hbn. set_unfold. destruct Hbn as [?|[?|[]]]; subst; done.
  - intros bn Hbn. set_unfold. destruct Hbn as [?|[?|[]]]; subst; reflexivity.
  - vm_compute. reflexivity.
  - vm_compute. reflexivity.
  - vm_compute. lia.
Defined.
End BatchInvariant.

Section HeightsWhereAll.
Context {A : Type} (P : A → Prop) `{∀ x, Decision (P x)}.

Lemma heights_where_all bns (xs : list A) :
  length bns ≤ length xs → Forall P xs → heights_where P bns xs = bns.
Proof.
  revert xs. induction bns as [|bn bns IH]; intros [|x xs] Hlen Hall;
    simpl in Hlen; try done; try lia.
  apply Forall_cons in Hall as [Hx Hall].
  rewrite heights_where_cons, decide_True by done. f_equal. apply IH; [lia|done].
Qed.

Lemma heights_where_none bns (xs : list A) :
  Forall (λ x, ¬ P x) xs → heights_where P bns xs = [].
Proof.
  revert xs. induction bns as [|bn bns IH]; intros [|x xs] Hall; try done.
  apply Forall_cons in Hall as [Hx Hall].
  rewrite heights_where_cons, decide_False by done. by apply IH.
Qed.

Lemma heights_where_subseteq bns (xs : list A) bn :
  bn ∈ heights_where P bns xs → bn ∈ bns.
Proof.
  intros (i & x & Hi & _)%elem_of_heights_where.
  by eapply list_elem_of_lookup_2.
Qed.

Lemma heights_where_NoDup bns (xs : list A) :
  NoDup bns → NoDup (heights_where P bns xs).
Proof.
  revert xs. induction bns as [|bn bns IH]; intros [|x xs] Hnd;
    try (by constructor).
  apply NoDup_cons in Hnd as [Hbn Hnd].
  rewrite heights_where_cons. destruct (decide (P x)); [|by apply IH].
  constructor; [|by apply IH].
  intros Hin. by apply heights_where_subseteq in Hin.
Qed.
End HeightsWhereAll.

Lemma heights_where_apart {A} (P : A → Prop) `{∀ x, Decision (P x)}
    bns (xs : list A) bn :
  NoDup bns → bn ∈ heights_where P bns xs →
  bn ∉ heights_where (λ x, ¬ P x) bns xs.
Proof.
  intros Hnd (i & x & Hi & Hx & HP)%elem_of_heights_where
    (j & y & Hj & Hy & HnP)%elem_of_heights_where.
  assert (i = j) as -> by (by eapply NoDup_lookup).
  by simplify_eq.
Qed.

Section RequestRoundTrips.
Import QueueManager.

Lemma addBlockResults_nil_blocks n sid q :
  addBlockResults (replicate n None) sid q = q.
Proof. unfold addBlockResults. induction n as [|n IH]; [done|]. exact IH. Qed.

Lemma removeResultsByStreamID_clean sid (q : resultQueue) :
  (∀ r, r ∈ q → stid r ≠ sid) → removeResultsByStreamID sid q = ([], q).
Proof.
  intros Hq. unfold removeResultsByStreamID. f_equal.
  - induction q as [|r q IH]; [done|].
    rewrite (filter_cons _ r). case_decide as Hr.
    + exfalso. by apply (Hq r); [left|].
    + apply IH. intros x Hx. apply Hq. by right.
  - apply filter_all. done.
Qed.

(** X6.  An answer with no block at all is handled like a failed request:
    when no result of the stream is queued, [HandleRequestResult] with a nil
    block for every height leaves the manager as [HandleRequestError] does,
    but for the signal buffered on [resultC]. *)
Theorem HandleRequestResult_all_nil (bns : list N) (sid : StreamID)
    (g : getBlocksManager)
    (Hclean : ∀ r, r ∈ rq g → stid r ≠ sid) :
  HandleRequestResult bns (replicate (length bns) None) sid g
  = Some (with_resultC true (HandleRequestError bns sid g)).
Proof.
  unfold HandleRequestResult.
  rewrite result_loop_some by (rewrite drop_0, length_replicate; lia).
  rewrite drop_0.
  rewrite (heights_where_all (λ ob : option Block, ob = None))
    by first [rewrite length_replicate; lia | by apply Forall_replicate].
  rewrite (heights_where_none (λ ob : option Block, ob ≠ None))
    by (apply Forall_replicate; naive_solver).
  rewrite HandleRequestError_fields. cbv zeta.
  rewrite (removeResultsByStreamID_clean sid (rq g)) by done.
  unfold with_rq, with_resultC, nudge. queue_fields.
  by rewrite addBlockResults_nil_blocks.
Qed.

Lemma HandleRequestResult_all_nil_witness :
  HandleRequestResult [11%N; 14%N] (replicate 2 None) "s1" sample_manager
  = Some (with_resultC true (HandleRequestError [11%N; 14%N] "s1" sample_manager)).
Proof.
  apply (HandleRequestResult_all_nil [11%N; 14%N] "s1" sample_manager).
  intros r Hr. by apply elem_of_nil in Hr.
Defined.

(** X7.  Heights whose blocks arrive and are then inserted leave the
    manager: after [HandleRequestResult] with a block of the requested height
    for every height of [bns], followed by [HandleInsertResult] on these
    blocks, no height of [bns] is in [requesting] or in [processing], and
    [retries] is as before. *)
Theorem request_insert_lifecycle (bns : list N) (bs : list Block)
    (sid : StreamID) (g : getBlocksManager)
    (Hheights : NumberU64 <$> bs = bns) :
  ∃ g1, HandleRequestResult bns (Some <$> bs) sid g = Some g1
    ∧ let g2 := HandleInsertResult ((λ b, mkResult b sid) <$> bs) g1 in
      requesting g2 = requesting g ∖ list_to_set bns
      ∧ processing g2 = processing g ∖ list_to_set bns
      ∧ retries g2 = retries g
      ∧ (∀ bn, bn ∈ bns → (bn ∉ requesting g2) ∧ (bn ∉ processing g2)).
Proof.
  assert (Hlen : length bns = length bs) by (by rewrite <- Hheights, length_fmap).
  unfold HandleRequestResult.
  rewrite result_loop_some by (rewrite drop_0, length_fmap; lia).
  rewrite drop_0.
  rewrite (heights_where_all (λ ob : option Block, ob ≠ None))
    by first [rewrite length_fmap; lia | by apply Forall_fmap, Forall_true].
  rewrite (heights_where_none (λ ob : option Block, ob = None))
    by (apply Forall_fmap, Forall_true; done).
  eexists. split; [reflexivity|].
  unfold HandleInsertResult, with_processing, with_rq, with_resultC.
  queue_fields.
  assert (getBlockNumber <$> ((λ b, mkResult b sid) <$> bs) = bns) as ->.
  { rewrite <- list_fmap_compose. exact Hheights. }
  rewrite !delete_all_difference, insert_all_union.
  split_and!; [done|set_solver|done|set_solver].
Qed.

Lemma request_insert_lifecycle_witness :
  ∃ g1, HandleRequestResult [12%N] [Some (mkBlock 12 7)] "s1" sample_manager
        = Some g1
        ∧ 12%N ∉ requesting (HandleInsertResult [mkResult (mkBlock 12 7) "s1"] g1).
Proof.
  destruct (request_insert_lifecycle [12%N] [mkBlock 12 7] "s1" sample_manager)
    as (g1 & Hrun & _ & _ & _ & Hout).
  - reflexivity.
  - exists g1. split; [exact Hrun|]. apply (Hout 12%N). left.
Defined.
End RequestRoundTrips.

(** * Further properties of the manager that records download details *)

Section DetailsManager.
Import TxManager.

(** The guard [if len(bns) > 0] changes nothing: both variants of
    [GetNextBatch] compute the same batch and the same sets. *)
Lemma Tx_GetNextBatch_forget cap soft fuel t :
  (λ r, (r.1, forget_details r.2)) <$> GetNextBatch cap soft fuel t
  = QueueManager.GetNextBatch cap soft fuel (forget_details t).
Proof.
  unfold GetNextBatch, QueueManager.GetNextBatch, getBatchFromRetries,
    QueueManager.getBatchFromRetries, curHeight, QueueManager.curHeight.
  unfold forget_details. queue_fields.
  destruct (retries_loop (Z.to_nat cap) (NumberU64 (CurrentBlock (chain t)))
              (retries t) []) as [bns q].
  assert (Hguard : (if (0 <? Z.of_nat (length bns))%Z
                    then ((cap - Z.of_nat (length bns))%Z,
                          addBatchToRequesting bns (with_retries q t))
                    else (cap, with_retries q t))
                   = ((cap - Z.of_nat (length bns))%Z,
                      addBatchToRequesting bns (with_retries q t))).
  { destruct bns as [|bn bns]; [|done]. cbn [length]. simpl.
    by rewrite Z.sub_0_r. }
  rewrite Hguard.
  unfold availableForMoreTasks, QueueManager.availableForMoreTasks,
    getBatchFromUnprocessed, QueueManager.getBatchFromUnprocessed,
    addBatchToRequesting, QueueManager.addBatchToRequesting,
    with_requesting, with_retries, QueueManager.with_requesting,
    QueueManager.with_retries, curHeight, QueueManager.curHeight.
  tx_fields. queue_fields. cbn [fmap option_fmap option_map].
  destruct (rq_Len (rq t) <? soft)%Z; [|done].
  by destruct (unprocessed_loop _ _ _ _ _ _ _).
Qed.

(** X8.  The guard [if len(bns) > 0] of this variant of [GetNextBatch]
    changes nothing: it returns the batch that the other variant returns on
    the same sets, leaves the same sets, and leaves the download details
    alone. *)
Theorem Tx_GetNextBatch_agrees (cap soft : Z) (fuel : nat)
    (t : getBlocksManager) :
  match GetNextBatch cap soft fuel t,
        QueueManager.GetNextBatch cap soft fuel (forget_details t) with
  | Some (bns, t'), Some (bns', g') =>
      bns = bns' ∧ forget_details t' = g' ∧ bdd t' = bdd t
  | None, None => True
  | _, _ => False
  end.
Proof.
  pose proof (Tx_GetNextBatch_forget cap soft fuel t) as Hforget.
  assert (Hbdd : ∀ bns t', GetNextBatch cap soft fuel t = Some (bns, t') →
                           bdd t' = bdd t).
  { unfold GetNextBatch, getBatchFromRetries. intros bns t'.
    destruct (retries_loop _ _ _ _) as [R q].
    unfold availableForMoreTasks, getBatchFromUnprocessed, addBatchToRequesting,
      with_requesting, with_retries.
    destruct (0 <? Z.of_nat (length R))%Z; tx_fields;
      (destruct (rq_Len (rq t) <? soft)%Z;
       [destruct (unprocessed_loop _ _ _ _ _ _ _); [|done]|];
       by intros [= <- <-]). }
  destruct (GetNextBatch cap soft fuel t) as [[bns t']|];
    destruct (QueueManager.GetNextBatch cap soft fuel (forget_details t))
      as [[bns' g']|]; try done.
  cbn in Hforget. injection Hforget as <- <-. split_and!; eauto.
Qed.

(** X9.  [SetDownloadDetails] followed by [GetDownloadDetails]: every height
    of [bns] reads back the loop id and the stream just set, whatever was
    recorded for it before; every other height reads as before; and a height
    for which nothing was ever recorded reads as loop 0 and the empty
    stream id.  The tracking sets are not touched. *)
Theorem SetDownloadDetails_GetDownloadDetails (bns : list N) (loop : Z)
    (sid : StreamID) (t : getBlocksManager) (bn : N) (c : blockChain)
    (target : N) :
  GetDownloadDetails bn (SetDownloadDetails bns loop sid t)
  = (if decide (bn ∈ bns) then (loop, sid) else GetDownloadDetails bn t)
  ∧ GetDownloadDetails bn (newGetBlocksManager c target) = (0%Z, EmptyString)
  ∧ requesting (SetDownloadDetails bns loop sid t) = requesting t
  ∧ processing (SetDownloadDetails bns loop sid t) = processing t
  ∧ retries (SetDownloadDetails bns loop sid t) = retries t
  ∧ rq (SetDownloadDetails bns loop sid t) = rq t.
Proof.
  split_and!; try done.
  unfold GetDownloadDetails, SetDownloadDetails, with_bdd. tx_fields.
  rewrite lookup_foldl_insert. by destruct (decide (bn ∈ bns)).
Qed.

(** X10.  In this variant an answer whose blocks are all empty (at most one
    byte each) is handled exactly like a failed request:
    [HandleRequestResult] then leaves the very state that
    [HandleRequestError] leaves. *)
Theorem Tx_HandleRequestResult_all_short (bns : list N)
    (blockBytes sigBytes : list (list Byte.byte)) (loop : Z) (sid : StreamID)
    (t : getBlocksManager)
    (Hlen : length bns ≤ length blockBytes)
    (Hshort : Forall (λ bytes, length bytes ≤ 1) blockBytes) :
  HandleRequestResult bns blockBytes sigBytes loop sid t
  = Some (HandleRequestError bns sid t).
Proof.
  unfold HandleRequestResult.
  pose proof (Tx_result_loop_some 0 bns blockBytes loop sid t) as Hloop.
  rewrite drop_0 in Hloop. cbv zeta in Hloop. rewrite Hloop by done.
  rewrite (heights_where_all (λ bytes : list Byte.byte, length bytes ≤ 1))
    by done.
  rewrite (heights_where_none (λ bytes : list Byte.byte, ¬ length bytes ≤ 1))
    by (eapply Forall_impl; [exact Hshort|]; naive_solver).
  by rewrite TxHandleRequestError_fields.
Qed.

Lemma Tx_HandleRequestResult_all_short_witness :
  let t := newGetBlocksManager (mkChain (mkBlock 10 0)) 20 in
  HandleRequestResult [11%N; 12%N] [[Byte.x00]; []] [[]; []] 3 "s1" t
  = Some (HandleRequestError [11%N; 12%N] "s1" t).
Proof.
  intros t. apply Tx_HandleRequestResult_all_short.
  - simpl. lia.
  - repeat constructor.
Defined.
End DetailsManager.

Section DetailsManagerInvariant.
Import TxManager.

Local Abbreviation apart t :=
  (tracking_disjoint (requesting t) (processing t) (retries t)).

Lemma HandleRequestError_apart bns sid t :
  apart t → (∀ bn, bn ∈ bns → bn ∈ requesting t) → NoDup bns →
  apart (HandleRequestError bns sid t).
Proof.
  intros (Hrp & Hnd & Hret) Hbns Hnodup.
  rewrite TxHandleRequestError_fields. tx_fields.
  rewrite delete_all_difference. split_and!.
  - set_solver.
  - rewrite push_all_perm. apply NoDup_app. split_and!; [done| |done].
    intros y Hy Hy'. apply Hret in Hy' as [? _]. auto.
  - intros y [Hy|Hy]%elem_of_push_all.
    + split; [set_solver|]. apply Hbns in Hy. set_solver.
    + apply Hret in Hy as [? ?]. split; [set_solver|done].
Qed.

Lemma HandleRequestResult_apart bns (blockBytes sigBytes : list (list Byte.byte))
    loop sid t :
  apart t → (∀ bn, bn ∈ bns → bn ∈ requesting t) → NoDup bns →
  length bns ≤ length blockBytes →
  ∃ t', HandleRequestResult bns blockBytes sigBytes loop sid t = Some t'
        ∧ apart t'.
Proof.
  intros (Hrp & Hnd & Hret) Hbns Hnodup Hlen.
  unfold HandleRequestResult.
  pose proof (Tx_result_loop_some 0 bns blockBytes loop sid t) as Hloop.
  rewrite drop_0 in Hloop. cbv zeta in Hloop. rewrite Hloop by done.
  eexists. split; [reflexivity|]. tx_fields.
  rewrite delete_all_difference, insert_all_union.
  set (arrived := heights_where (λ bytes : list Byte.byte, ¬ length bytes ≤ 1)
                    bns blockBytes).
  set (absent := heights_where (λ bytes : list Byte.byte, length bytes ≤ 1)
                   bns blockBytes).
  assert (Harr : ∀ y, y ∈ arrived → y ∈ bns)
    by (intros y; apply heights_where_subseteq).
  assert (Habs : ∀ y, y ∈ absent → y ∈ bns)
    by (intros y; apply heights_where_subseteq).
  assert (Hsplit : ∀ y, y ∈ absent → y ∉ arrived)
    by (intros y; by apply heights_where_apart).
  split_and!.
  - intros y Hy Hy'. apply elem_of_difference in Hy as [Hy Hnot].
    apply elem_of_union in Hy' as [Hy'|Hy']; [|set_solver].
    apply Hnot, elem_of_list_to_set, Harr. by apply elem_of_list_to_set in Hy'.
  - rewrite push_all_perm. apply NoDup_app. split_and!; [|  |done].
    + by apply heights_where_NoDup.
    + intros y Hy Hy'. apply Hret in Hy' as [? _]. auto.
  - intros y [Hy|Hy]%elem_of_push_all.
    + split; [set_solver|].
      intros [Hin|Hin]%elem_of_union.
      * apply elem_of_list_to_set in Hin. by apply (Hsplit y).
      * apply Habs, Hbns in Hy. set_solver.
    + apply Hret in Hy as [Hreq Hproc]. split; [set_solver|].
      intros [Hin|Hin]%elem_of_union; [|done].
      apply elem_of_list_to_set, Harr, Hbns in Hin. done.
Qed.

(** X11.  The handlers keep the three tracking sets apart when they are
    called on heights that are being requested (each once) and, for an insert
    failure, on a height that is being processed: if beforehand no height is
    in both maps and the heights in [retries] are queued once and in neither
    map, the same holds after [HandleRequestError], after
    [HandleRequestResult], after [HandleInsertResult] and after
    [HandleInsertError]. *)
Theorem Tx_handlers_keep_apart (bns : list N)
    (blockBytes sigBytes : list (list Byte.byte)) (loop : Z) (sid : StreamID)
    (blk : N) (t : getBlocksManager)
    (Hinv : apart t)
    (Hbns : ∀ bn, bn ∈ bns → bn ∈ requesting t)
    (Hnodup : NoDup bns)
    (Hlen : length bns ≤ length blockBytes)
    (Hblk : blk ∈ processing t) :
  apart (HandleRequestError bns sid t)
  ∧ (∃ t', HandleRequestResult bns blockBytes sigBytes loop sid t = Some t'
           ∧ apart t')
  ∧ apart (HandleInsertResult blk t)
  ∧ apart (HandleInsertError blk t).
Proof.
  split; [by apply HandleRequestError_apart|].
  split; [by apply HandleRequestResult_apart|].
  destruct Hinv as (Hrp & Hnd & Hret).
  unfold HandleInsertResult, HandleInsertError, with_processing, with_retries.
  tx_fields. split.
  - split_and!; [set_solver|done|]. intros y Hy. apply Hret in Hy. set_solver.
  - split_and!.
    + set_solver.
    + rewrite push_perm. constructor; [|done].
      intros Hin. apply Hret in Hin as [_ ?]. done.
    + intros y [->|Hy]%elem_of_push; [set_solver|].
      apply Hret in Hy. set_solver.
Qed.

Lemma Tx_handlers_keep_apart_witness :
  let t := mkManager (mkChain (mkBlock 10 0)) 20 {[11%N; 12%N]} {[13%N]}
             [14%N] [] ∅ false in
  apart (HandleRequestError [11%N; 12%N] "s1" t)
  ∧ apart (HandleInsertError 13 t).
Proof.
  intros t.
  destruct (Tx_handlers_keep_apart [11%N; 12%N] [[Byte.x01; Byte.x02]; []]
              [[]; []] 3 "s1" 13 t) as (Herr & _ & _ & Hins).
  - subst t. tx_fields. split_and!.
    + set_solver.
    + repeat constructor; set_solver.
    + intros bn Hbn. set_unfold. destruct Hbn as [?|[]]; subst.
      split; [intros [?|?]; done|done].
  - subst t. tx_fields. set_solver.
  - repeat constructor; set_solver.
  - simpl. lia.
  - subst t. tx_fields. set_solver.
  - split; assumption.
Defined.
End DetailsManagerInvariant.

Section DetailsManagerReissue.
Import TxManager.

(** X12.  A height whose insertion failed is handed out again: after
    [HandleInsertError(blkNum)] on a height above the head, the next
    [GetNextBatch] returns a batch that contains [blkNum] and puts it back
    into [requesting], provided the retry queue holds no [0] and fewer
    heights than the cap. *)
Theorem Tx_insert_error_reissued (cap soft : Z) (fuel : nat) (blk : N)
    (t : getBlocksManager)
    (Hblk : (curHeight t < blk)%N)
    (Hzero : 0%N ∉ retries t)
    (Hroom : length (retries t) < Z.to_nat cap)
    (Hhead : (curHeight t + 1 < uint64_mod)%N)
    (Htarget : (targetBN t + 1 < uint64_mod)%N)
    (Hfuel : N.to_nat (targetBN t - curHeight t) ≤ fuel) :
  ∃ bns t',
    GetNextBatch cap soft fuel (HandleInsertError blk t) = Some (bns, t')
    ∧ blk ∈ bns
    ∧ blk ∈ requesting t'
    ∧ (blk ∉ processing t')
    ∧ retries t' = [].
Proof.
  set (t1 := HandleInsertError blk t).
  pose proof (Tx_GetNextBatch_forget cap soft fuel t1) as Hforget.
  destruct (GetNextBatch_run cap soft fuel (forget_details t1))
    as (k & _ & _ & Hmin & Hrun); [done..|].
  assert (Hret1 : QueueManager.retries (forget_details t1) = push blk (retries t))
    by done.
  assert (Hlen1 : length (push blk (retries t)) = S (length (retries t))).
  { by rewrite (Permutation_length (push_perm _ _)). }
  rewrite Hret1 in Hmin, Hrun.
  assert (k = length (push blk (retries t))) as Hk.
  { rewrite Hmin; [lia|]. intros [?|?]%elem_of_push; [lia|done]. }
  cbv zeta in Hrun. rewrite Hk, firstn_all, drop_all in Hrun.
  rewrite Hrun in Hforget.
  destruct (GetNextBatch cap soft fuel t1) as [[bns t']|]; [|done].
  cbn [fmap option_fmap option_map fst snd] in Hforget.
  apply (inj Some), pair_equal_spec in Hforget as [Hbns Ht'].
  exists bns, t'. split; [done|].
  assert (Hin : blk ∈ filter (λ bn, (QueueManager.curHeight (forget_details t1) < bn)%N)
                  (push blk (retries t))).
  { apply list_elem_of_filter. split; [exact Hblk|]. apply elem_of_push. by left. }
  assert (Hbatch : blk ∈ bns).
  { rewrite Hbns. apply elem_of_app. by left. }
  split; [done|].
  rewrite <- Hbns in Ht'.
  apply (f_equal QueueManager.requesting) in Ht' as Hreq.
  apply (f_equal QueueManager.processing) in Ht' as Hproc.
  apply (f_equal QueueManager.retries) in Ht' as Hretr.
  unfold forget_details in Hreq, Hproc, Hretr.
  queue_fields_in Hreq. queue_fields_in Hproc. queue_fields_in Hretr.
  rewrite Hreq, Hproc, Hretr.
  split_and!; [set_solver| |done].
  subst t1. unfold HandleInsertError, with_retries, with_processing.
  tx_fields. set_solver.
Qed.

Lemma Tx_insert_error_reissued_witness :
  let t := mkManager (mkChain (mkBlock 10 0)) 20 ∅ {[13%N]} [14%N] [] ∅ false in
  ∃ bns t', GetNextBatch 4 100 10 (HandleInsertError 13 t) = Some (bns, t')
            ∧ 13%N ∈ bns.
Proof.
  intros t.
  destruct (Tx_insert_error_reissued 4 100 10 13 t)
    as (bns & t' & Hrun & Hin & _).
  - vm_compute. reflexivity.
  - subst t. tx_fields. set_solver.
  - subst t. tx_fields. simpl. lia.
  - vm_compute. reflexivity.
  - vm_compute. reflexivity.
  - vm_compute. lia.
  - exists bns, t'. split; assumption.
Defined.
End DetailsManagerReissue.

(** * Further properties of the short-range helper *)

Section HashNumbers.
Import ShortRange.

Lemma hash_numbers_loop_window len fuel bn bound res :
  (N.of_nat len + bn = bound + 1)%N → (bound + 1 < uint64_mod)%N → len ≤ fuel →
  hash_numbers_loop fuel bn bound res = Some (res ++ heights_from bn len).
Proof.
  revert fuel bn res. induction len as [|len IH]; intros fuel bn res Hlen Hb Hfuel.
  { destruct fuel; simpl; rewrite (proj2 (N.leb_gt _ _)) by lia;
      by rewrite app_nil_r. }
  destruct fuel as [|fuel]; [lia|].
  cbn [hash_numbers_loop heights_from]. rewrite (proj2 (N.leb_le _ _)) by lia.
  assert (succ64 bn = (bn + 1)%N) as ->.
  { unfold succ64. apply N.mod_small. lia. }
  rewrite IH by lia. by rewrite <- app_assoc.
Qed.

(** X13.  [prepareBlockHashNumbers(curNumber, count)] returns the
    [n = min(count, BlockHashesPerRequest)] heights that follow [curNumber],
    in ascending order and without a gap, when [n] is not negative, a slice
    of [n] heights is within what the runtime allocates ([8 * n <= maxAlloc])
    and the memory for it is there, and the heights stay below the largest
    [uint64]. *)
Theorem prepareBlockHashNumbers_window (maxAlloc : Z) (mallocgc : Z → bool)
    (BlockHashesPerRequest : Z) (fuel : nat) (curNumber : N) (count : Z)
    (Hcount : (0 ≤ count `min` BlockHashesPerRequest)%Z)
    (Hcap : (8 * (count `min` BlockHashesPerRequest) ≤ maxAlloc)%Z)
    (Hmem : mallocgc (8 * (count `min` BlockHashesPerRequest))%Z = true)
    (Hmax : (curNumber + Z.to_N (count `min` BlockHashesPerRequest) + 1
             < uint64_mod)%N)
    (Hfuel : Z.to_nat (count `min` BlockHashesPerRequest) ≤ fuel) :
  prepareBlockHashNumbers maxAlloc mallocgc BlockHashesPerRequest fuel
    curNumber count
  = Returned (heights_from (curNumber + 1)
                (Z.to_nat (count `min` BlockHashesPerRequest))).
Proof.
  unfold prepareBlockHashNumbers, makeslice_uint64.
  set (n := if (BlockHashesPerRequest <? count)%Z
            then BlockHashesPerRequest else count).
  assert (n = count `min` BlockHashesPerRequest)%Z as ->.
  { subst n. destruct (BlockHashesPerRequest <? count)%Z eqn:E;
      [apply Z.ltb_lt in E|apply Z.ltb_ge in E]; lia. }
  rewrite (proj2 (Z.ltb_ge _ 0)), (proj2 (Z.ltb_ge maxAlloc _)), Hmem by lia.
  cbn [orb].
  assert (succ64 curNumber = (curNumber + 1)%N) as ->.
  { unfold succ64. apply N.mod_small. lia. }
  rewrite N.mod_small by lia.
  rewrite (hash_numbers_loop_window
             (Z.to_nat (count `min` BlockHashesPerRequest))) by lia.
  done.
Qed.

Lemma prepareBlockHashNumbers_window_witness :
  prepareBlockHashNumbers (2 ^ 48) (λ _, true) 20 5 100 3
  = Returned [101%N; 102%N; 103%N].
Proof.
  apply (prepareBlockHashNumbers_window (2 ^ 48) (λ _, true) 20 5 100 3).
  - lia.
  - vm_compute. discriminate.
  - reflexivity.
  - vm_compute. reflexivity.
  - simpl. lia.
Defined.

End HashNumbers.

Section StreamEviction.
Import ShortRange.
Context {error : Type}.

Implicit Types (sh : @srHelper error).

Lemma size_list_to_set_le (l : list StreamID) :
  size (list_to_set l : gset StreamID) ≤ length l.
Proof.
  induction l as [|x l IH]; [by rewrite list_to_set_nil, size_empty|].
  rewrite list_to_set_cons, size_union_alt, size_singleton. cbn [length].
  assert (size (list_to_set l ∖ {[x]} : gset StreamID)
          ≤ size (list_to_set l : gset StreamID))
    by (apply subseteq_size; set_solver).
  lia.
Qed.

Lemma removeStreams_run sts sh :
  removeStreams sts sh
  = mkHelper (mkProtocol (streams (syncProtocol sh) ∖ list_to_set sts)
                (replies (syncProtocol sh)))
      (config sh) (ctxDone sh).
Proof.
  unfold removeStreams. revert sh.
  induction sts as [|st sts IH]; intros sh; cbn [foldl].
  - rewrite list_to_set_nil, difference_empty_L. by destruct sh as [[] ? ?].
  - rewrite IH. unfold with_protocol, RemoveStream. helper_fields.
    rewrite list_to_set_cons. do 2 f_equal. set_solver.
Qed.

(** X15.  [removeStreams] evicts the listed streams and nothing else: the
    pool loses exactly the streams of the list, in whatever order and however
    often they are listed, so that removing a list twice is removing it
    once; the number of streams drops by at most the length of the list. *)
Theorem removeStreams_exact (sts sts' : list StreamID) sh :
  streams (syncProtocol (removeStreams sts sh))
  = streams (syncProtocol sh) ∖ list_to_set sts
  ∧ (∀ sid, sid ∈ streams (syncProtocol (removeStreams sts sh))
            ↔ sid ∈ streams (syncProtocol sh) ∧ sid ∉ sts)
  ∧ removeStreams sts (removeStreams sts sh) = removeStreams sts sh
  ∧ ((∀ sid, sid ∈ sts ↔ sid ∈ sts') →
     removeStreams sts' sh = removeStreams sts sh)
  ∧ (NumStreams (syncProtocol sh) - Z.of_nat (length sts)
     ≤ NumStreams (syncProtocol (removeStreams sts sh))
     ≤ NumStreams (syncProtocol sh))%Z.
Proof.
  rewrite !removeStreams_run. helper_fields.
  pose proof (size_list_to_set_le sts) as Hlist.
  pose proof (size_difference_alt (streams (syncProtocol sh))
                (list_to_set sts)) as Hdiff.
  assert (size (streams (syncProtocol sh) ∩ list_to_set sts)
          ≤ size (list_to_set sts : gset StreamID)) as Hcap
    by (apply subseteq_size; set_solver).
  assert (size (streams (syncProtocol sh) ∖ list_to_set sts)
          ≤ size (streams (syncProtocol sh))) as Hsub
    by (apply subseteq_size; set_solver).
  split_and!.
  - done.
  - intros sid. rewrite elem_of_difference, elem_of_list_to_set. done.
  - do 2 f_equal. set_solver.
  - intros Hsame. do 2 f_equal. set_solver.
  - unfold NumStreams. helper_fields. lia.
  - unfold NumStreams. helper_fields. lia.
Qed.
End StreamEviction.

Section StreamEvictionOnly.
Import ShortRange.
Context {error : Type}.
Variables (errors_New : string → error) (ctx_Err noStream : error).
Variable computeLongestHashChain : blockHashResults → list N * list StreamID.

Implicit Types (sh : @srHelper error).

(** X16.  [getHashChain] evicts a stream only for an answer of the wrong
    length: with a [Concurrency] that is not negative it returns, and a stream
    of the pool is still there afterwards exactly when none of the answers
    served came from it with a length other than [len(bns)].  An answer that
    is an error never costs the stream its place, and when every answer has
    the right length the pool keeps all its streams. *)
Theorem getHashChain_evicts_only_wrong_length (bns : list N) sh
    (Hconc : (0 ≤ Concurrency (config sh))%Z) :
  let served :=
    take (Z.to_nat (Concurrency (config sh))) (replies (syncProtocol sh)) in
  ∃ out sh',
    getHashChain errors_New ctx_Err noStream computeLongestHashChain bns sh
    = Some (out, sh')
    ∧ (∀ sid, sid ∈ streams (syncProtocol sh') ↔
              sid ∈ streams (syncProtocol sh)
              ∧ ¬ ∃ hashes, ReplyHashes hashes sid ∈ served
                            ∧ length hashes ≠ length bns)
    ∧ ((∀ hashes sid, ReplyHashes hashes sid ∈ served →
                      length hashes = length bns) →
       streams (syncProtocol sh') = streams (syncProtocol sh))
    ∧ config sh' = config sh.
Proof.
  intros served. unfold getHashChain.
  rewrite (proj2 (Z.ltb_ge _ _)) by lia.
  rewrite (hash_workers_run errors_New noStream (λ _, false)
             computeLongestHashChain).
  fold served.
  assert (Hev : ∀ sid, sid ∈ (list_to_set (evicted bns served) : gset StreamID)
                       ↔ ∃ hashes, ReplyHashes hashes sid ∈ served
                                   ∧ length hashes ≠ length bns).
  { intros sid. rewrite elem_of_list_to_set. apply elem_of_evicted. }
  set (sh' := mkHelper _ _ _).
  assert (Hout : ∃ out,
            (if ctxDone sh' then Some (([], [], Some ctx_Err), sh')
             else let '(hashChain, wl) :=
                    computeLongestHashChain
                      (mkHashResults (window (newBlockHashResults bns))
                         (results (newBlockHashResults bns)
                          ++ recorded bns served)) in
                  Some ((hashChain, wl, None), sh'))
            = Some (out, sh')).
  { destruct (ctxDone sh'); [by eexists|].
    destruct (computeLongestHashChain _). by eexists. }
  destruct Hout as [out Hout]. exists out, sh'. split; [exact Hout|].
  subst sh'. helper_fields. split_and!; [| |done].
  - intros sid. rewrite elem_of_difference, Hev. done.
  - intros Hall. apply set_eq. intros sid. rewrite elem_of_difference, Hev.
    split; [tauto|]. intros Hin. split; [done|].
    intros (hashes & Hs & Hlen). by apply Hlen, (Hall hashes sid).
Qed.

End StreamEvictionOnly.

Lemma getHashChain_evicts_only_wrong_length_witness :
  let pool : streamPool unit :=
    mkProtocol {["s1"; "s2"; "s3"]}
      [ReplyHashes [1%N; 2%N] "s1"; ReplyHashes [1%N] "s2"; ReplyError "s3" ()] in
  let sh := ShortRange.mkHelper pool (ShortRange.mkConfig 3) false in
  ∃ out sh',
    ShortRange.getHashChain (λ _, ()) () () (λ _, ([], [])) [10%N; 11%N] sh
    = Some (out, sh')
    ∧ "s3" ∈ streams (ShortRange.syncProtocol sh').
Proof.
  intros pool sh.
  destruct (getHashChain_evicts_only_wrong_length (λ _, ()) () () (λ _, ([], []))
              [10%N; 11%N] sh) as (out & sh' & Hrun & Hkeep & _).
  - simpl. lia.
  - exists out, sh'. split; [exact Hrun|]. apply Hkeep. split.
    + subst sh pool. helper_fields. set_solver.
    + intros (hashes & Hin & _). subst sh pool. helper_fields.
      simpl in Hin. rewrite !elem_of_cons, elem_of_nil in Hin.
      destruct Hin as [?|[?|[?|[]]]]; discriminate.
Defined.

Section Transactions.
Import StagedSync.
Context {error : Type}.
Variable env : list call → option error.
Variable GetStageName : string → bool → bool → string.
Variable failed_to_initiate_db : error → error.

Local Abbreviation all_buckets := (bucket_calls GetStageName Buckets).

Lemma bucket_calls_plain names :
  Forall plain_call (bucket_calls GetStageName names).
Proof.
  unfold bucket_calls. induction names as [|name names IH]; [constructor|].
  cbn [mbind list_bind app]. by repeat (constructor; [done|]).
Qed.

Lemma plain_calls_commit_last body before after :
  Forall plain_call body →
  body ++ [Commit] = before ++ Commit :: after → after = [].
Proof.
  intros Hbody. revert before.
  induction Hbody as [|c body (_ & _ & Hc) _ IH]; intros before Heq.
  - destruct before as [|c' [|c'' before]]; simplify_eq/=; done.
  - destruct before as [|c' before]; simplify_eq/=; by eauto.
Qed.

Lemma own_transaction_intro body (commit : bool) :
  Forall plain_call body →
  own_transaction
    (BeginRw :: body ++ (if commit then [Commit] else []) ++ [Rollback]).
Proof.
  intros Hbody. exists (body ++ if commit then [Commit] else []).
  assert (Hno : ∀ c, c ≠ Commit → ¬ plain_call c →
                     c ∉ body ++ if commit then [Commit] else []).
  { intros c Hc Hplain. rewrite elem_of_app. intros [Hin|Hin].
    - by apply Hplain, (proj1 (Forall_forall _ _) Hbody).
    - destruct commit; [apply list_elem_of_singleton in Hin; done|].
      by apply elem_of_nil in Hin. }
  split_and!.
  - by rewrite <-(assoc_L (++)).
  - apply Hno; [done|]. by intros (? & _).
  - apply Hno; [done|]. by intros (_ & ? & _).
  - intros before after Heq. destruct commit.
    + by eapply plain_calls_commit_last.
    + rewrite (right_id_L [] (++)) in Heq.
      assert (Hin : Commit ∈ body) by (rewrite Heq; set_solver).
      by destruct (proj1 (Forall_forall _ _) Hbody _ Hin) as (_ & _ & ?).
Qed.

Lemma plain_calls_no_commit body :
  Forall plain_call body → Commit ∉ BeginRw :: body ++ [Rollback].
Proof.
  intros Hbody. rewrite elem_of_cons, elem_of_app, list_elem_of_singleton.
  intros [?|[Hin|?]]; [done| |done].
  by destruct (proj1 (Forall_forall _ _) Hbody _ Hin) as (_ & _ & ?).
Qed.

Lemma create_buckets_calls names tr :
  let all := bucket_calls GetStageName names in
  create_buckets env GetStageName names tr = (None, tr ++ all)
  ∨ ∃ k e, 1 ≤ k ≤ length all
           ∧ create_buckets env GetStageName names tr
             = (Some e, tr ++ take k all)
           ∧ env (tr ++ take k all) = Some e.
Proof.
  revert tr. induction names as [|name names IH]; intros tr all.
  - left. subst all. cbn. by rewrite (right_id_L [] (++)).
  - subst all. unfold bucket_calls in *. cbn [mbind list_bind app].
    cbn [create_buckets perform]. cbn [length].
    destruct (env (tr ++ [CreateBucket (GetStageName name false false)]))
      as [e|] eqn:H1.
    { right. exists 1, e. cbn [take]. split_and!; [lia|lia|done|done]. }
    destruct (env ((tr ++ [CreateBucket (GetStageName name false false)])
                   ++ [CreateBucket (GetStageName name true false)]))
      as [e|] eqn:H2.
    { right. exists 2, e. cbn [take]. rewrite <-(assoc_L (++)) in H2 |- *.
      split_and!; [lia|lia|done|done]. }
    destruct (IH ((tr ++ [CreateBucket (GetStageName name false false)])
                  ++ [CreateBucket (GetStageName name true false)]))
      as [Hall|(k & e & Hk & Hrun & He)].
    + left. rewrite Hall. by rewrite <-!(assoc_L (++)).
    + right. exists (S (S k)), e. rewrite Hrun. cbn [take].
      rewrite <-!(assoc_L (++)) in He |- *. split_and!; [lia|lia|done|done].
Qed.

Lemma initDB_calls tr :
  env (tr ++ [BeginRw]) = None →
  (∃ k e, 1 ≤ k ≤ length all_buckets
          ∧ initDB env GetStageName failed_to_initiate_db tr
            = (Some e, tr ++ BeginRw :: take k all_buckets ++ [Rollback]))
  ∨ initDB env GetStageName failed_to_initiate_db tr
    = (failed_to_initiate_db <$> env (tr ++ BeginRw :: all_buckets ++ [Commit]),
       tr ++ BeginRw :: all_buckets ++ [Commit; Rollback]).
Proof.
  intros Hbegin. unfold initDB. cbn [perform]. rewrite Hbegin.
  destruct (create_buckets_calls Buckets (tr ++ [BeginRw]))
    as [Hall|(k & e & Hk & Hrun & He)].
  - right. rewrite Hall. cbn [perform snd].
    rewrite <-!(assoc_L (++)). cbn [app].
    destruct (env (tr ++ BeginRw :: all_buckets ++ [Commit]));
      cbn [fmap option_fmap option_map]; rewrite <-?(assoc_L (++));
      cbn [app]; rewrite <-?(assoc_L (++)); done.
  - left. exists k, e. rewrite Hrun. cbn [perform snd].
    rewrite <-!(assoc_L (++)). cbn [app]. done.
Qed.


(** X18.  [runSyncCycle] opens a transaction only when the cycle fits in one
    ([0 < MaxBlocksPerSyncCycle <= MaxMemSyncCycleSize]).  When it does not,
    the stages run without a transaction and nothing is begun, committed or
    rolled back.  When it does and [BeginRw] fails, the stages are not run at
    all.  Otherwise the stages run inside the transaction, which is committed
    exactly when they succeed and is rolled back last in either case; the
    block cache is purged exactly when the stages fail. *)
Theorem runSyncCycle_transaction (MaxBlocksPerSyncCycle MaxMemSyncCycleSize : N) tr :
  ∃ calls,
    runSyncCycle env MaxBlocksPerSyncCycle MaxMemSyncCycleSize tr = tr ++ calls ∧
    if decide (0 < MaxBlocksPerSyncCycle ≤ MaxMemSyncCycleSize)%N then
      match env (tr ++ [BeginRw]) with
      | Some _ => calls = [BeginRw]
      | None =>
          own_transaction calls
          ∧ take 2 calls = [BeginRw; Run true]
          ∧ (Run false ∉ calls)
          ∧ (Commit ∈ calls ↔ env (tr ++ [BeginRw; Run true]) = None)
          ∧ (purgeOldBlocksFromCache ∈ calls ↔
             env (tr ++ [BeginRw; Run true]) ≠ None)
      end
    else
      no_transaction calls
      ∧ take 1 calls = [Run false]
      ∧ (Run true ∉ calls)
      ∧ (purgeOldBlocksFromCache ∈ calls ↔ env (tr ++ [Run false]) ≠ None).
Proof.
  unfold runSyncCycle, run_and_commit. cbn [perform snd].
  destruct (decide _) as [Hfit|Hfit].
  - rewrite (proj2 (N.ltb_lt _ _)), (proj2 (N.leb_le _ _)) by lia.
    cbn [andb]. destruct (env (tr ++ [BeginRw])) as [e|] eqn:Hbegin.
    { by exists [BeginRw]. }
    rewrite <-!(assoc_L (++)). cbn [app].
    destruct (env (tr ++ [BeginRw; Run true])) as [e|] eqn:Hrun.
    + exists ([BeginRw; Run true; purgeOldBlocksFromCache; Rollback]).
      cbn [snd]. rewrite <-!(assoc_L (++)). cbn [app]. split; [done|].
      split_and!; [|done|set_solver|set_solver|set_solver].
      apply (own_transaction_intro [Run true; purgeOldBlocksFromCache] false).
      by repeat (constructor; [done|]).
    + exists ([BeginRw; Run true; Commit; Rollback]).
      cbn [snd]. rewrite <-!(assoc_L (++)). cbn [app]. split; [done|].
      split_and!; [|done|set_solver|set_solver|set_solver].
      apply (own_transaction_intro [Run true] true).
      by repeat (constructor; [done|]).
  - assert (Hb : (0 <? MaxBlocksPerSyncCycle)%N
                 && (MaxBlocksPerSyncCycle <=? MaxMemSyncCycleSize)%N = false).
    { apply andb_false_iff. rewrite N.ltb_ge, N.leb_gt. lia. }
    rewrite Hb. destruct (env (tr ++ [Run false])) as [e|] eqn:Hrun.
    + exists [Run false; purgeOldBlocksFromCache].
      rewrite <-!(assoc_L (++)). cbn [app]. split; [done|].
      unfold no_transaction. split_and!; [set_solver..|done|set_solver|set_solver].
    + exists [Run false]. split; [done|].
      unfold no_transaction. split_and!; [set_solver..|done|set_solver|set_solver].
Qed.

(** X19.  The last-mile stage leaves a transaction it was handed alone: with
    an external transaction [Unwind] only marks the unwind done, returning
    what that returns, and [Prune] calls nothing and returns [nil]; neither
    commits or rolls back.  Without one, each opens its own transaction and
    stops at once if that fails; otherwise [Unwind] commits exactly when
    marking the unwind done succeeded, [Prune] just commits, each returns
    [nil] only after a [Commit] that succeeded, and the deferred [Rollback]
    is the last call of both. *)
Theorem last_mile_transactions (useExternalTx : bool) tr :
  let '(ures, utr) := Unwind env useExternalTx tr in
  let '(pres, ptr) := Prune env useExternalTx tr in
  ∃ ucalls pcalls,
    utr = tr ++ ucalls ∧ ptr = tr ++ pcalls ∧
    if useExternalTx then
      ucalls = [UnwindDone] ∧ ures = env (tr ++ [UnwindDone])
      ∧ pcalls = [] ∧ pres = None
    else
      match env (tr ++ [BeginRw]) with
      | Some e =>
          ucalls = [BeginRw] ∧ ures = Some e
          ∧ pcalls = [BeginRw] ∧ pres = Some e
      | None =>
          own_transaction ucalls ∧ own_transaction pcalls
          ∧ take 2 ucalls = [BeginRw; UnwindDone]
          ∧ (Commit ∈ ucalls ↔ env (tr ++ [BeginRw; UnwindDone]) = None)
          ∧ (ures = None ↔
             env (tr ++ [BeginRw; UnwindDone]) = None
             ∧ env (tr ++ [BeginRw; UnwindDone; Commit]) = None)
          ∧ pcalls = [BeginRw; Commit; Rollback]
          ∧ pres = env (tr ++ [BeginRw; Commit])
      end.
Proof.
  unfold Unwind, Prune. destruct useExternalTx; cbn [perform].
  { exists [UnwindDone], []. by rewrite (right_id_L [] (++)). }
  destruct (env (tr ++ [BeginRw])) as [e|] eqn:Hbegin.
  { by exists [BeginRw], [BeginRw]. }
  rewrite <-?(assoc_L (++)). cbn [app snd].
  destruct (env (tr ++ [BeginRw; UnwindDone])) as [e|] eqn:Hdone;
    cbn [perform snd]; rewrite <-?(assoc_L (++)); cbn [app].
  - exists [BeginRw; UnwindDone; Rollback], [BeginRw; Commit; Rollback].
    split_and!; try done.
    + apply (own_transaction_intro [UnwindDone] false).
      by repeat (constructor; [done|]).
    + apply (own_transaction_intro [] true). constructor.
    + set_solver.
    + naive_solver.
  - exists [BeginRw; UnwindDone; Commit; Rollback], [BeginRw; Commit; Rollback].
    split_and!; try done.
    + apply (own_transaction_intro [UnwindDone] true).
      by repeat (constructor; [done|]).
    + apply (own_transaction_intro [] true). constructor.
    + set_solver.
    + naive_solver.
Qed.
End Transactions.
